(** * juju: controller addresses, storage client, jujuc server, txn-queue
      limit, the peergrouper's topology computer, publisher and manifold,
      the search for tools and the connection to the API

    A shallow embedding of the Go sources of the repository and the
    properties proved about them.  Go values are modelled as follows:

    - a slice is an [option (list A)]: [None] is the nil slice, [Some l]
      a non-nil slice with elements [l] (Go distinguishes the two only
      through [== nil]; [len] and [range] treat them alike);
    - a function returning [(T, error)] returns a pair whose second
      component is an [option]: [None] is the nil error;
    - a call into a package that is not part of the sources is a
      [Variable] of the enclosing [Section];
    - a map is a [gmap], a set a [gset];
    - a function that may panic returns a [panics]: its result or the
      message of the panic.

    Of worker/peergrouper the sources hold the manifold's test only; the
    topology computer, the publisher and the manifold are modelled from
    the specification, each under a comment that says so. *)

From stdpp Require Import base option list strings pretty gmap.
From Stdlib Require Import Ascii ZArith Lia.

Open Scope string_scope.
Open Scope list_scope.

#[local] Set Warnings "-clear-no-such-hyp".

(** ** Go slices *)

Definition slice (A : Type) : Type := option (list A).

(** The elements a [range] loop visits. *)
Definition elems {A} (s : slice A) : list A := default [] s.

(** Go's [len]. *)
Definition len {A} (s : slice A) : nat := length (elems s).

(** Go's [append(s, x)]: appending to the nil slice allocates. *)
Definition append {A} (s : slice A) (x : A) : slice A := Some (elems s ++ [x]).

(** Go's [make([]T, 0, n)]: empty, but not nil. *)
Definition make_empty {A} : slice A := Some [].

Lemma elems_append {A} (s : slice A) x : elems (append s x) = elems s ++ [x].
Proof. by destruct s. Qed.

(** * apiserver/common/addresses.go *)

Module Addresses.
Section APIAddresser.

(** [network.HostPort], Go's [error] and the facade resources are declared
    outside the sources. *)
Context {HostPort error Resources : Type}.

(** [network.PrioritizeInternalHostPorts(hps, machineLocal)]. *)
Variable PrioritizeInternalHostPorts : list HostPort → bool → list string.

(** The part of [AddressAndCertGetter] that [apiAddresses] uses; a method
    without arguments is the value it returns. *)
Record APIHostPortsGetter := {
  APIHostPorts : slice (slice HostPort) * option error
}.

Record AddressAndCertGetter := {
  Addresses : slice string * option error;
  ModelUUID : string;
  hostPortsGetter :> APIHostPortsGetter
}.

Record APIAddresser := NewAPIAddresser {
  getter : AddressAndCertGetter;
  resources : Resources
}.

(** [params.StringsResult], with the field the code sets. *)
Record StringsResult := { Result : slice string }.

(** The zero value [params.StringsResult{}]. *)
Definition StringsResult_zero : StringsResult := {| Result := None |}.

(** The inner loop of [apiAddresses]: [for _, addr := range ordered]. *)
Definition append_nonempty (addrs : slice string) (ordered : list string) : slice string :=
  foldl (λ addrs addr, if decide (addr ≠ "") then append addrs addr else addrs)
        addrs ordered.

Definition apiAddresses (g : APIHostPortsGetter) : slice string * option error :=
  let '(apiHostPorts, err) := APIHostPorts g in
  match err with
  | Some e => (None, Some e)
  | None =>
      let addrs : slice string := make_empty in
      let addrs :=
        foldl (λ addrs hostPorts,
                 let ordered := PrioritizeInternalHostPorts (elems hostPorts) false in
                 append_nonempty addrs ordered)
              addrs (elems apiHostPorts) in
      (addrs, None)
  end.

Definition APIAddresses (api : APIAddresser) : StringsResult * option error :=
  let '(addrs, err) := apiAddresses (getter api) in
  match err with
  | Some e => (StringsResult_zero, Some e)
  | None => ({| Result := addrs |}, None)
  end.

Definition StateAddresses (g : AddressAndCertGetter) : StringsResult * option error :=
  let '(addrs, err) := Addresses g in
  match err with
  | Some e => (StringsResult_zero, Some e)
  | None => ({| Result := addrs |}, None)
  end.

(** What the addresses of one server are to be: its host:ports in the
    prioritized order, the empty strings left out. *)
Definition server_addresses (hostPorts : slice HostPort) : list string :=
  filter (λ addr, addr ≠ "") (PrioritizeInternalHostPorts (elems hostPorts) false).

(** What the result is to be: the servers' addresses, server after server. *)
Definition prioritized_addresses (servers : slice (slice HostPort)) : list string :=
  concat (server_addresses <$> elems servers).

Lemma append_nonempty_elems addrs ordered :
  elems (append_nonempty addrs ordered)
  = elems addrs ++ filter (λ addr, addr ≠ "") ordered.
Proof.
  unfold append_nonempty.
  revert addrs; induction ordered as [|addr ordered IH]; intros addrs; simpl.
  - by rewrite app_nil_r.
  - rewrite IH, filter_cons. case_decide.
    + by rewrite elems_append, <- app_assoc.
    + done.
Qed.

Lemma append_nonempty_not_nil l ordered :
  append_nonempty (Some l) ordered
  = Some (l ++ filter (λ addr, addr ≠ "") ordered).
Proof.
  unfold append_nonempty.
  revert l; induction ordered as [|addr ordered IH]; intros l; simpl.
  - by rewrite app_nil_r.
  - rewrite filter_cons. case_decide.
    + unfold append; simpl. by rewrite IH, <- app_assoc.
    + apply IH.
Qed.

Lemma servers_loop l servers :
  foldl (λ addrs hostPorts,
           append_nonempty addrs (PrioritizeInternalHostPorts (elems hostPorts) false))
        (Some l) servers
  = Some (l ++ concat (server_addresses <$> servers)).
Proof.
  revert l; induction servers as [|hp servers IH]; intros l; simpl.
  - by rewrite app_nil_r.
  - rewrite append_nonempty_not_nil, IH. unfold server_addresses.
    by rewrite <- app_assoc.
Qed.

(** C6.  When [APIHostPorts()] succeeds, [apiAddresses] returns, server
    after server, the address strings of [PrioritizeInternalHostPorts]
    in its order with the empty strings left out, and [APIAddresses]
    wraps them in a [StringsResult]; when it fails, [apiAddresses]
    returns the nil slice and the error, and [APIAddresses] the zero
    [StringsResult] and the error. *)
Theorem apiAddresses_prioritized (api : APIAddresser) servers err :
  APIHostPorts (getter api) = (servers, err) →
  match err with
  | None =>
      apiAddresses (getter api) = (Some (prioritized_addresses servers), None)
      ∧ APIAddresses api
        = ({| Result := Some (prioritized_addresses servers) |}, None)
  | Some e =>
      apiAddresses (getter api) = (None, Some e)
      ∧ APIAddresses api = (StringsResult_zero, Some e)
  end.
Proof.
  intros Hget. unfold APIAddresses, apiAddresses. rewrite Hget.
  destruct err as [e|]; [done|].
  unfold make_empty, prioritized_addresses.
  by rewrite servers_loop.
Qed.

(** ** The other methods of the facade *)

(** [params.HostPort] and [params.FromNetworkHostsPorts] are declared
    outside the sources. *)
Context {params_HostPort : Type}.
Variable FromNetworkHostsPorts : slice (slice HostPort) → slice (slice params_HostPort).

(** [params.APIHostPortsResult] and its zero value. *)
Record APIHostPortsResult := { Servers : slice (slice params_HostPort) }.

Definition APIHostPortsResult_zero : APIHostPortsResult := {| Servers := None |}.

(** The method [APIHostPorts] of the [APIAddresser] returns the API server
    addresses. *)
Definition APIAddresser_APIHostPorts (api : APIAddresser)
    : APIHostPortsResult * option error :=
  let '(servers, err) := APIHostPorts (getter api) in
  match err with
  | Some e => (APIHostPortsResult_zero, Some e)
  | None => ({| Servers := FromNetworkHostsPorts servers |}, None)
  end.

Lemma elem_of_concat {A} (x : A) (ls : list (list A)) :
  x ∈ concat ls ↔ ∃ l, x ∈ l ∧ l ∈ ls.
Proof.
  induction ls as [|l ls IH]; simpl.
  - split; [by intros ?%elem_of_nil | by intros (l & _ & ?%elem_of_nil)].
  - rewrite elem_of_app, IH. split.
    + intros [Hx|(l' & Hx & Hl')]; [exists l | exists l']; split; try done.
      * by left.
      * by right.
    + intros (l' & Hx & [->|Hl']%elem_of_cons); [by left | right; by exists l'].
Qed.

(** When [APIAddresses] succeeds its result is not the nil slice, also
    when there is no server at all; no address in it is the empty string,
    and each one is an address [PrioritizeInternalHostPorts] gave for one
    of the servers of the getter. *)
Theorem APIAddresses_no_empty_address (api : APIAddresser) (res : StringsResult) :
  APIAddresses api = (res, None) →
  Result res ≠ None
  ∧ ∀ addr, addr ∈ elems (Result res) →
      addr ≠ ""
      ∧ ∃ hostPorts, hostPorts ∈ elems (APIHostPorts (getter api)).1
                     ∧ addr ∈ PrioritizeInternalHostPorts (elems hostPorts) false.
Proof.
  unfold APIAddresses, apiAddresses.
  destruct (APIHostPorts (getter api)) as [servers [e|]]; [done|].
  unfold make_empty. rewrite servers_loop. intros [= <-]. simpl.
  split; [done|].
  intros addr (l & Haddr & (hostPorts & -> & Hserver)%list_elem_of_fmap)%elem_of_concat.
  apply list_elem_of_filter in Haddr as [Hne Haddr].
  split; [done|]. by exists hostPorts.
Qed.

(** A method has failed with [err]: it returns that error, and the zero
    value when the error is not nil. *)
Definition fails_with {A} (zero : A) (got : A * option error) (err : option error) : Prop :=
  got.2 = err ∧ (is_Some err → got.1 = zero).

(** The three methods fail exactly when the getter does, with its error
    and with the zero value as result. *)
Theorem facade_errors (api : APIAddresser) :
  fails_with APIHostPortsResult_zero (APIAddresser_APIHostPorts api)
             (APIHostPorts (getter api)).2
  ∧ fails_with StringsResult_zero (APIAddresses api) (APIHostPorts (getter api)).2
  ∧ fails_with StringsResult_zero (StateAddresses (getter api)) (Addresses (getter api)).2.
Proof.
  unfold fails_with, APIAddresser_APIHostPorts, APIAddresses, apiAddresses, StateAddresses.
  destruct (APIHostPorts (getter api)) as [servers [e|]],
           (Addresses (getter api)) as [addrs [e'|]]; simpl;
    repeat split; try done; by intros [? [=]].
Qed.

End APIAddresser.

(** A getter with two servers: the first lists an empty address between
    two others, the second fails to resolve to anything but the empty
    string.  Host:ports are the strings themselves and the order is
    reversed by the prioritizer. *)
Definition example_getter : @AddressAndCertGetter string string :=
  {| Addresses := (None, None);
     ModelUUID := "deadbeef";
     hostPortsGetter :=
       {| APIHostPorts :=
            (Some [Some ["10.0.0.1:17070"; ""; "192.168.0.1:17070"]; Some [""]; None],
             None) |} |}.

Lemma apiAddresses_prioritized_witness :
  APIAddresses (λ hps _, reverse hps) (NewAPIAddresser example_getter ())
  = ({| Result := Some ["192.168.0.1:17070"; "10.0.0.1:17070"] |}, None).
Proof.
  exact (proj2 (apiAddresses_prioritized (λ hps _, reverse hps)
                  (NewAPIAddresser example_getter ()) _ None eq_refl)).
Defined.

Lemma APIAddresses_no_empty_address_witness :
  Result {| Result := Some ["192.168.0.1:17070"; "10.0.0.1:17070"] |} ≠ None
  ∧ ∀ addr, addr ∈ ["192.168.0.1:17070"; "10.0.0.1:17070"] →
      addr ≠ ""
      ∧ ∃ hostPorts, hostPorts ∈ elems (APIHostPorts example_getter).1
                     ∧ addr ∈ reverse (elems hostPorts).
Proof.
  apply (APIAddresses_no_empty_address (λ hps _, reverse hps)
           (NewAPIAddresser example_getter ())
           {| Result := Some ["192.168.0.1:17070"; "10.0.0.1:17070"] |}).
  reflexivity.
Defined.

End Addresses.

(** * api/storage: the storage client *)

Module Storage.

(** [strings.Join(elems, sep)]. *)
Definition strings_Join (elems : list string) (sep : string) : string :=
  String.concat sep elems.

Section Client.

(** [names.StorageTag], [params.StorageInstance], [params.Error] and Go's
    [error] are declared outside the sources, as are the methods
    [String()] of a tag and [Error()] of a [params.Error], and the
    constructors [errors.New] and [errors.Trace] of juju/errors. *)
Context {StorageTag StorageInstance params_Error error : Type}.
Variable Tag_String : StorageTag → string.
Variable Error_Error : params_Error → string.
Variable errors_New : string → error.
Variable errors_Trace : error → error.

Record Entity := { Tag : string }.
Record Entities := { Entities_ : slice Entity }.

(** [params.StorageShowResult]: [Error] is a pointer, nil when absent. *)
Record StorageShowResult := {
  Result : StorageInstance;
  Error : option params_Error
}.
Record StorageShowResults := { Results : slice StorageShowResult }.

(** [c.facade.FacadeCall(request, params, &response)]: the call fills the
    response it is handed and returns an error. *)
Variable FacadeCall :
  string → Entities → StorageShowResults → StorageShowResults * option error.

(** The body of the loop over [found.Results], on the pair
    [(info, errorStrings)]. *)
Definition collect (acc : slice StorageInstance * slice string)
    (result : StorageShowResult) : slice StorageInstance * slice string :=
  let '(info, errorStrings) := acc in
  match Error result with
  | Some e => (info, append errorStrings (Error_Error e))
  | None => (append info (Result result), errorStrings)
  end.

Definition Show (tags : slice StorageTag) : slice StorageInstance * option error :=
  let found := {| Results := None |} in
  let entities : slice Entity :=
    Some ((λ tag, {| Tag := Tag_String tag |}) <$> elems tags) in
  let '(found, err) := FacadeCall "Show" {| Entities_ := entities |} found in
  match err with
  | Some err => (None, Some (errors_Trace err))
  | None =>
      let info : slice StorageInstance := Some [] in
      let errorStrings : slice string := None in
      let '(info, errorStrings) :=
        foldl collect (info, errorStrings) (elems (Results found)) in
      if decide (0 < len errorStrings)
      then (None, Some (errors_New (strings_Join (elems errorStrings) ", ")))
      else (info, None)
  end.

(** The request [Show] sends for [tags], and what the facade answers. *)
Definition show_request (tags : slice StorageTag) : Entities :=
  {| Entities_ := Some ((λ tag, {| Tag := Tag_String tag |}) <$> elems tags) |}.

Definition show_response (tags : slice StorageTag) : StorageShowResults * option error :=
  FacadeCall "Show" (show_request tags) {| Results := None |}.

(** The error strings of the results that carry an error, and the
    instances of those that do not, both in result order. *)
Definition error_strings (results : list StorageShowResult) : list string :=
  omap (λ r, Error_Error <$> Error r) results.

Definition instances (results : list StorageShowResult) : list StorageInstance :=
  omap (λ r, match Error r with Some _ => None | None => Some (Result r) end) results.

Lemma collect_loop results info errorStrings :
  foldl collect (Some info, errorStrings) results
  = (Some (info ++ instances results),
     match error_strings results with
     | [] => errorStrings
     | errs => Some (elems errorStrings ++ errs)
     end).
Proof.
  revert info errorStrings.
  induction results as [|r results IH]; intros info errorStrings; simpl.
  - by rewrite app_nil_r.
  - destruct (Error r) as [e|]; simpl.
    + rewrite IH. f_equal.
      destruct (error_strings results); simpl.
      * done.
      * unfold append; simpl. by rewrite <- app_assoc.
    + unfold append at 1; simpl. rewrite IH.
      by rewrite <- app_assoc.
Qed.

Lemma instances_no_error results :
  Forall (λ r, Error r = None) results → instances results = Result <$> results.
Proof.
  induction 1 as [|r results Hr _ IH]; [done|].
  unfold instances in *. simpl. rewrite Hr. simpl. by f_equal.
Qed.

Lemma error_strings_nil results :
  error_strings results = [] ↔ Forall (λ r, Error r = None) results.
Proof.
  unfold error_strings. induction results as [|r results IH]; simpl.
  - split; [constructor | done].
  - destruct (Error r) as [e|] eqn:He; simpl.
    + split; [done | inversion 1; congruence].
    + rewrite IH. split; [by constructor | by inversion 1].
Qed.

(** What [Show] is to return for the per-entity results of a call: if
    some result carries an error, the nil slice and one error whose
    message joins the results' error strings with [", "]; if none does,
    the results' instances in result order and the nil error. *)
Definition returns_for_results (results : list StorageShowResult)
    (out : slice StorageInstance * option error) : Prop :=
  (Exists (λ r, is_Some (Error r)) results →
   out = (None, Some (errors_New (strings_Join (error_strings results) ", "))))
  ∧ (Forall (λ r, Error r = None) results →
     out = (Some (Result <$> results), None)).

(** The same for every call, whatever the facade call itself returned. *)
Definition Show_as_claimed (tags : slice StorageTag) : Prop :=
  returns_for_results (elems (Results (show_response tags).1)) (Show tags).

Lemma Show_unfold tags :
  Show tags
  = match show_response tags with
    | (_, Some err) => (None, Some (errors_Trace err))
    | (found, None) =>
        let results := elems (Results found) in
        match error_strings results with
        | [] => (Some (instances results), None)
        | errs => (None, Some (errors_New (strings_Join errs ", ")))
        end
    end.
Proof.
  unfold Show, show_response, show_request.
  destruct (FacadeCall _ _ _) as [found [err|]]; [done|].
  rewrite collect_loop. cbn zeta.
  destruct (error_strings (elems (Results found))) as [|s errs];
    by rewrite decide_bool_decide.
Qed.

(** C8, amended.  When the facade call fails, [Show] returns the nil
    slice and the traced error of the call.  When it succeeds: if some
    per-entity result carries an error, [Show] returns the nil slice and
    one error whose message joins the error strings with [", "]; if none
    does, it returns the instances in result order and the nil error. *)
Theorem Show_results (tags : slice StorageTag) :
  match show_response tags with
  | (_, Some err) => Show tags = (None, Some (errors_Trace err))
  | (found, None) => returns_for_results (elems (Results found)) (Show tags)
  end.
Proof.
  rewrite Show_unfold.
  destruct (show_response tags) as [found [err|]]; [done|].
  simpl. split.
  - intros Hex.
    destruct (error_strings (elems (Results found))) as [|s errs] eqn:Herrs; [|done].
    apply error_strings_nil in Herrs.
    apply Exists_exists in Hex as (r & Hr & [e He]).
    rewrite Forall_forall in Herrs. specialize (Herrs r Hr). congruence.
  - intros Hall. rewrite (instances_no_error _ Hall).
    apply error_strings_nil in Hall. by rewrite Hall.
Qed.

(** [Show] returns the nil slice exactly when it returns an error; when
    it returns none, it returns one instance for each result of the call,
    an empty slice and not the nil slice if there was no result. *)
Theorem Show_nil_iff_error (tags : slice StorageTag) :
  ((Show tags).1 = None ↔ is_Some (Show tags).2)
  ∧ ∀ info, (Show tags).1 = Some info →
      length info = length (elems (Results (show_response tags).1)).
Proof.
  rewrite Show_unfold.
  destruct (show_response tags) as [found [err|]]; simpl.
  { split; [split; eauto|done]. }
  destruct (error_strings (elems (Results found))) as [|s errs] eqn:Herrs; simpl.
  - split; [split; [done|by intros [? [=]]]|].
    intros info [= <-]. apply error_strings_nil in Herrs.
    by rewrite (instances_no_error _ Herrs), length_fmap.
  - split; [split; eauto|done].
Qed.

End Client.

(** A facade whose connection is down: the call fails and leaves the
    response as it was handed in.  Tags, instances and errors are
    strings. *)
Definition failing_FacadeCall (request : string) (args : Entities)
    (response : @StorageShowResults string string) :
    @StorageShowResults string string * option string :=
  (response, Some "connection is shut down").

(** C8 as stated fails: the facade call fails, no per-entity result
    carries an error, and [Show] returns the nil slice and the error of
    the call instead of the instances and the nil error. *)
Lemma Show_facade_error_counterexample :
  Show id id id id failing_FacadeCall (Some ["storage-data-0"])
  = (None, Some "connection is shut down")
  ∧ ¬ Show_as_claimed id id id id failing_FacadeCall (Some ["storage-data-0"]).
Proof.
  split; [reflexivity|].
  intros [_ Hnone]. specialize (Hnone (Forall_nil_2 _)). discriminate Hnone.
Qed.

(** A facade that answers one result per entity: an error for the tags
    that name no storage, the tag itself as the instance otherwise. *)
Definition example_FacadeCall (request : string) (args : Entities)
    (response : @StorageShowResults string string) :
    @StorageShowResults string string * option string :=
  ({| Results :=
        Some ((λ e, if decide (Tag e = "storage-gone-1")
                    then {| Result := ""; Error := Some ("storage " +:+ Tag e +:+ " not found") |}
                    else {| Result := Tag e; Error := None |})
              <$> elems (Entities_ args)) |},
   None).

Example Show_all_found :
  Show id id id id example_FacadeCall (Some ["storage-data-0"; "storage-logs-2"])
  = (Some ["storage-data-0"; "storage-logs-2"], None).
Proof. reflexivity. Qed.

Example Show_some_errors :
  Show id id id id example_FacadeCall
       (Some ["storage-gone-1"; "storage-data-0"; "storage-gone-1"])
  = (None,
     Some "storage storage-gone-1 not found, storage storage-gone-1 not found").
Proof. reflexivity. Qed.

End Storage.

(** * cmd/jujuc/server/server.go *)

Module Jujuc.

(** An error of this package is modelled by its message, the string its
    [Error()] method returns. *)
Definition error : Type := string.

(** [fmt.Sprintf] for the formats this package uses: [%s] is replaced by
    the next argument, every other character stands for itself. *)
Fixpoint Sprintf (format : string) (v : list string) : string :=
  match format with
  | EmptyString => EmptyString
  | String "%"%char (String "s"%char rest) =>
      match v with
      | a :: v => a +:+ Sprintf rest v
      | [] => "%!s(MISSING)" +:+ Sprintf rest []
      end
  | String c rest => String c (Sprintf rest v)
  end.

Definition fmt_Errorf (format : string) (v : list string) : error :=
  Sprintf format v.

(** [badReqErr] returns an error indicating a bad Request. *)
Definition badReqErr (format : string) (v : list string) : error :=
  fmt_Errorf ("bad request: " +:+ format) v.

Definition jujucPurpose : string :=
  "invoke a hosted command inside the unit agent process".

(** Request contains the information necessary to run a Command remotely. *)
Record Request := {
  ContextId : string;
  Dir : string;
  Args : slice string
}.

(** Response contains the return code and output generated by a Request. *)
Record Response := {
  Code : Z;
  Stdout : string;
  Stderr : string
}.

(** [cmd.Context{Dir, Stdout, Stderr}]: the two buffers are modelled by
    their contents. *)
Record Context := {
  ctx_Dir : string;
  ctx_Stdout : string;
  ctx_Stderr : string
}.

Section Server.

(** The package [cmd] is outside the sources: its [Command]s, the
    [SuperCommand] literal with its [Name], [Purpose] and [Doc], the
    method [Register], and [cmd.Main], which runs a command in a context
    on arguments, writes to the context's buffers and returns the exit
    code.  Running a command acts on the process, the [World]. *)
Context {Command SuperCommand World : Type}.
Variable JUJUC_DOC : string.
Variable SuperCommand_lit : string → string → string → SuperCommand.
Variable Register : SuperCommand → Command → SuperCommand.
Variable cmd_Main :
  option SuperCommand → Context → slice string → World → Z * Context * World.

(** [filepath.IsAbs]. *)
Variable filepath_IsAbs : string → bool.

(** CmdsGetter returns a list of available cmd.Commands, connected to the
    context identified by contextId. *)
Definition CmdsGetter : Type := string → slice Command * option error.

(** Jujuc wraps a set of Commands for RPC. *)
Record Jujuc := { getCmds : CmdsGetter }.

(** [cmd] returns a command which can interpret Request arguments and run
    the appropriate subcommand against state specified by contextId. *)
Definition cmd (j : Jujuc) (contextId : string) : option SuperCommand * option error :=
  let '(cmds, err) := getCmds j contextId in
  match err with
  | Some err => (None, Some err)
  | None =>
      let sc := SuperCommand_lit "(-> jujuc)" jujucPurpose JUJUC_DOC in
      let sc := foldl Register sc (elems cmds) in
      (Some sc, None)
  end.

(** [Main] runs the Command specified by req, and fills in resp.  It
    returns the error, the response as the caller finds it afterwards,
    and the world. *)
Definition Main (j : Jujuc) (req : Request) (resp : Response) (w : World)
    : option error * Response * World :=
  if decide (Args req = None ∨ len (Args req) < 1) then
    (Some (badReqErr "Args is too short" []), resp, w)
  else if negb (filepath_IsAbs (Dir req)) then
    (Some (badReqErr "Dir is not absolute" []), resp, w)
  else
    let '(c, err) := cmd j (ContextId req) in
    match err with
    | Some err => (Some (badReqErr "%s" [err]), resp, w)
    | None =>
        let ctx := {| ctx_Dir := Dir req; ctx_Stdout := ""; ctx_Stderr := "" |} in
        let '(code, ctx, w) := cmd_Main c ctx (Args req) w in
        (None,
         {| Code := code; Stdout := ctx_Stdout ctx; Stderr := ctx_Stderr ctx |},
         w)
    end.

(** The requests [Main] refuses. *)
Definition bad_request (j : Jujuc) (req : Request) : Prop :=
  Args req = None ∨ len (Args req) < 1
  ∨ filepath_IsAbs (Dir req) = false
  ∨ is_Some (getCmds j (ContextId req)).2.

(** The super command [Main] runs for a context whose commands are [cmds]. *)
Definition jujuc_command (cmds : slice Command) : SuperCommand :=
  foldl Register (SuperCommand_lit "(-> jujuc)" jujucPurpose JUJUC_DOC) (elems cmds).

Lemma badReqErr_error (err : error) :
  badReqErr "%s" [err] = "bad request: " +:+ err.
Proof.
  assert (err +:+ "" = err) as Hnil.
  { induction err as [|c err IH]; [done|].
    change (String c (err +:+ "") = String c err). by rewrite IH. }
  change (badReqErr "%s" [err]) with ("bad request: " +:+ (err +:+ "")).
  by rewrite Hnil.
Qed.

(** C9.  [Main] returns a "bad request" error, with the response and the
    world as they were (no command has run), when [req.Args] is nil or
    shorter than one, or [req.Dir] is not absolute, or the commands of
    [req.ContextId] cannot be obtained; otherwise it runs the command and
    returns the nil error with [Code], [Stdout] and [Stderr] set from the
    run. *)
Theorem Main_bad_request_or_run (j : Jujuc) (req : Request) (resp : Response) (w : World) :
  (bad_request j req →
   ∃ msg, Main j req resp w = (Some ("bad request: " +:+ msg), resp, w))
  ∧ (¬ bad_request j req →
     let ctx := {| ctx_Dir := Dir req; ctx_Stdout := ""; ctx_Stderr := "" |} in
     let c := jujuc_command (getCmds j (ContextId req)).1 in
     let '(code, ctx', w') := cmd_Main (Some c) ctx (Args req) w in
     Main j req resp w
     = (None,
        {| Code := code; Stdout := ctx_Stdout ctx'; Stderr := ctx_Stderr ctx' |},
        w')).
Proof.
  unfold bad_request, Main, cmd, jujuc_command.
  destruct (getCmds j (ContextId req)) as [cmds err]. simpl.
  split.
  - intros Hbad. case_decide as Hargs.
    { by exists "Args is too short". }
    destruct (filepath_IsAbs (Dir req)) eqn:Habs; simpl.
    + destruct err as [err|].
      * exists err. by rewrite badReqErr_error.
      * destruct Hbad as [?|[?|[?|[? ?]]]]; [tauto|tauto|done|done].
    + by exists "Dir is not absolute".
  - intros Hok. case_decide as Hargs; [tauto|].
    destruct (filepath_IsAbs (Dir req)) eqn:Habs; simpl; [|tauto].
    destruct err as [err|]; [exfalso; eauto 10|].
    by destruct (cmd_Main _ _ _ _) as [[code ctx'] w'].
Qed.

End Server.

(** A server with one context, ["ctx-0"], that hosts the commands
    ["config-get"] and ["relation-set"]; any other context id is unknown.
    A command is its name, a super command the list of the registered
    names, and the world the list of the runs so far.  Paths are Unix
    paths. *)
Definition example_getCmds : @CmdsGetter string :=
  λ contextId,
    if decide (contextId = "ctx-0") then (Some ["config-get"; "relation-set"], None)
    else (None, Some ("unknown context " +:+ contextId)).

Definition example_cmd_Main (c : option (list string)) (ctx : Context)
    (args : slice string) (w : list (list string)) : Z * Context * list (list string) :=
  (0%Z,
   {| ctx_Dir := ctx_Dir ctx; ctx_Stdout := "ran in " +:+ ctx_Dir ctx; ctx_Stderr := "" |},
   w ++ [elems args]).

Definition example_IsAbs (path : string) : bool :=
  match path with String "/"%char _ => true | _ => false end.

Definition example_Main :=
  Main "" (λ _ _ _, []) (λ sc c, sc ++ [c]) example_cmd_Main example_IsAbs
       {| getCmds := example_getCmds |}.

Example Main_runs :
  example_Main {| ContextId := "ctx-0"; Dir := "/var/lib/juju"; Args := Some ["config-get"] |}
               {| Code := 99; Stdout := "old"; Stderr := "old" |} []
  = (None, {| Code := 0; Stdout := "ran in /var/lib/juju"; Stderr := "" |},
     [["config-get"]]).
Proof. reflexivity. Qed.

Example Main_no_args :
  example_Main {| ContextId := "ctx-0"; Dir := "/var/lib/juju"; Args := Some [] |}
               {| Code := 99; Stdout := "old"; Stderr := "old" |} []
  = (Some "bad request: Args is too short",
     {| Code := 99; Stdout := "old"; Stderr := "old" |}, []).
Proof. reflexivity. Qed.

Example Main_relative_dir :
  example_Main {| ContextId := "ctx-0"; Dir := "var/lib/juju"; Args := Some ["config-get"] |}
               {| Code := 99; Stdout := "old"; Stderr := "old" |} []
  = (Some "bad request: Dir is not absolute",
     {| Code := 99; Stdout := "old"; Stderr := "old" |}, []).
Proof. reflexivity. Qed.

Example Main_unknown_context :
  example_Main {| ContextId := "ctx-1"; Dir := "/var/lib/juju"; Args := Some ["config-get"] |}
               {| Code := 99; Stdout := "old"; Stderr := "old" |} []
  = (Some "bad request: unknown context ctx-1",
     {| Code := 99; Stdout := "old"; Stderr := "old" |}, []).
Proof. reflexivity. Qed.

End Jujuc.

(** * patches/max_txn_queue_length_pr463.patch: the txn-queue limit of mgo/txn *)

Module Txn.

(** An error is modelled by its message. *)
Definition error : Type := string.

(** A token in a document's txn-queue. *)
Definition token : Type := string.

(** [mgo.Collection]: the name of the database it lives in and its own. *)
Record Collection := { Database : string; Name : string }.

(** [db.C(name)]. *)
Definition Database_C (db : string) (name : string) : Collection :=
  {| Database := db; Name := name |}.

(** RunnerOptions encapsulates ways you can tweak transaction Runner
    behavior.  MaxTxnQueueLength is a Go [int]. *)
Record RunnerOptions := { MaxTxnQueueLength : Z }.

(** A Runner applies operations as part of a transaction onto any number
    of collections within a database. *)
Record Runner := {
  tc : Collection;          (* txns *)
  sc : Collection;          (* stash *)
  lc : option Collection;   (* log *)
  opts : RunnerOptions      (* runtime options *)
}.

Definition defaultMaxTxnQueueLength : Z := 1000.

(** DefaultRunnerOptions defines default behavior for a Runner. *)
Definition DefaultRunnerOptions : RunnerOptions :=
  {| MaxTxnQueueLength := defaultMaxTxnQueueLength |}.

(** NewRunner returns a new transaction runner that uses tc to hold its
    transactions. *)
Definition NewRunner (tc : Collection) : Runner :=
  {| tc := tc;
     sc := Database_C (Database tc) (Name tc +:+ ".stash");
     lc := None;
     opts := DefaultRunnerOptions |}.

(** SetOptions allows people to change some of the internal behavior of a
    Runner. *)
Definition SetOptions (r : Runner) (o : RunnerOptions) : Runner :=
  {| tc := tc r; sc := sc r; lc := lc r; opts := o |}.

(** [docKey]: the collection and the id of a document; the id, any BSON
    value in Go, is modelled by the way [%v] prints it. *)
Record docKey := { C : string; Id : string }.

Global Instance docKey_eq_dec : EqDecision docKey.
Proof. solve_decision. Defined.

Global Instance docKey_countable : Countable docKey.
Proof.
  refine (inj_countable' (λ k, (C k, Id k)) (λ p, {| C := p.1; Id := p.2 |}) _).
  by intros [].
Defined.

(** What [cquery.Apply(change, &info)] reads back of the document. *)
Record docInfo := {
  Queue : slice token;
  Revno : Z;
  Remove : token
}.

(** The error the flusher reports for a txn-queue that is too long:
    [fmt.Errorf("txn-queue for %v in %q has too many transactions (%d)",
    dkey.Id, dkey.C, len(info.Queue))]; [quote] is what [%q] prints. *)
Definition too_many_transactions (quote : string → string) (dkey : docKey) (n : nat) : error :=
  "txn-queue for " +:+ Id dkey +:+ " in " +:+ quote (C dkey)
  +:+ " has too many transactions (" +:+ pretty n +:+ ")".

Section Flusher.

(** The rest of the package is outside the patch: the operations [Op] and
    the [tokenAndId]s of the flusher's queues, the functions
    [tokensWithIds] and [assembledRevnos], [strconv.Quote] behind [%q],
    the database [DB] with the txn-queue it holds for a document, and the
    two calls that act on it: [cquery.Apply(change, &info)], made for a
    document on behalf of a transaction, and [abortOrReload]. *)
Context {Op tokenAndId DB : Type}.

Inductive state := tpreparing | tprepared | taborting | tapplying | taborted | tapplied.

Record transaction := {
  txn_Id : string;
  State : state;
  Ops : list Op;
  Nonce : string
}.

(** The flusher embeds its [*Runner]; [queue] is [f.queue]. *)
Record flusher := {
  runner : Runner;
  queue : gmap docKey (list tokenAndId)
}.

Variable tokensWithIds : slice token → list tokenAndId.
Variable assembledRevnos : list Op → gmap docKey Z → slice Z.
Variable strconv_Quote : string → string.
Variable txn_queue : DB → docKey → list token.
Variable cquery_Apply : docKey → transaction → DB → option error * docInfo * DB.
Variable abortOrReload :
  flusher → transaction → slice Z → gmap string transaction → DB →
  option error * flusher * DB.

(** How the code added to the flusher leaves the loop over the documents
    of a transaction: it returns from the function, or goes on with the
    code that was there before, which is outside the patch. *)
Inductive outcome :=
  | Returns (revnos : slice Z) (err : option error)
  | GoesOn (info : docInfo)
  | ApplyFailed (err : error).

(** The patched statement: [if _, err := cquery.Apply(change, &info);
    err == nil { if f.opts.MaxTxnQueueLength > 0 && ... }]. *)
Definition apply_and_check (f : flusher) (t : transaction) (dkey : docKey)
    (revno : gmap docKey Z) (db : DB) : outcome * flusher * gmap docKey Z * DB :=
  let '(err, info, db) := cquery_Apply dkey t db in
  match err with
  | None =>
      let max := MaxTxnQueueLength (opts (runner f)) in
      if decide (0 < max ∧ max < Z.of_nat (len (Queue info)))%Z then
        (* txn-queue is too long, abort this transaction. abortOrReload will
           pull the tokens from all of the docs that we've touched so far. *)
        let revno := <[dkey := Revno info]> revno in
        let f := {| runner := runner f;
                    queue := <[dkey := tokensWithIds (Queue info)]> (queue f) |} in
        let revnos := assembledRevnos (Ops t) revno in
        let pull : gmap string transaction := {[ txn_Id t := t ]} in
        let '(err, f, db) := abortOrReload f t revnos pull db in
        match err with
        | None =>
            (* If we managed to abort the transaction, report on the bad data *)
            (Returns None
               (Some (too_many_transactions strconv_Quote dkey (len (Queue info)))),
             f, revno, db)
        | Some err => (Returns None (Some err), f, revno, db)
        end
      else (GoesOn info, f, revno, db)
  | Some err => (ApplyFailed err, f, revno, db)
  end.

(** [tokenFor(t)], the token a transaction leaves in the txn-queues. *)
Variable tokenFor : transaction → token.

(** The queue read back is longer than a limit that is in force. *)
Definition exceeds (max : Z) (info : docInfo) : Prop :=
  (0 < max ∧ max < Z.of_nat (len (Queue info)))%Z.






(** The flusher returns at the patched statement only for a queue that
    exceeds a limit in force, never with revnos and never with the nil
    error.  For a queue within the limit, and when applying failed, the
    statement leaves the flusher and the revnos of the documents as they
    were and makes no call after [cquery.Apply]. *)
Theorem apply_and_check_within_limit (f : flusher) (t : transaction)
    (dkey : docKey) (revno : gmap docKey Z) (db : DB) :
  let '(err, info, db1) := cquery_Apply dkey t db in
  let '(out, f', revno', db') := apply_and_check f t dkey revno db in
  (∀ revnos e, out = Returns revnos e →
     revnos = None ∧ is_Some e ∧ err = None
     ∧ exceeds (MaxTxnQueueLength (opts (runner f))) info)
  ∧ (is_Some err ∨ ¬ exceeds (MaxTxnQueueLength (opts (runner f))) info →
     out = match err with Some e => ApplyFailed e | None => GoesOn info end
     ∧ f' = f ∧ revno' = revno ∧ db' = db1).
Proof.
  unfold apply_and_check, exceeds.
  destruct (cquery_Apply dkey t db) as [[[e|] info] db1].
  { split; [done|]. by intros _. }
  case_decide as Hexceeds.
  - destruct (abortOrReload _ _ _ _ _) as [[[e|] f2] db2].
    + split; [by intros revnos e' [= <- <-]|]. intros [[? [=]]|?]; done.
    + split; [by intros revnos e' [= <- <-]|]. intros [[? [=]]|?]; done.
  - split; [done|]. by intros _.
Qed.

End Flusher.

(** ** A database of txn-queues

    The database maps a document to its txn-queue; applying an operation
    adds the token of the transaction to the queue unless it is there
    ([$addToSet]) and reads the document back. *)

Definition queues : Type := gmap docKey (list token).

Definition queue_of (db : queues) (dkey : docKey) : list token :=
  default [] (db !! dkey).

Definition example_tokenFor (t : @transaction unit) : token :=
  txn_Id t +:+ "_" +:+ Nonce t.

Definition example_Apply (dkey : docKey) (t : @transaction unit) (db : queues)
    : option error * docInfo * queues :=
  let tok := example_tokenFor t in
  let q := queue_of db dkey in
  let q := if decide (tok ∈ q) then q else q ++ [tok] in
  (None, {| Queue := Some q; Revno := 2; Remove := "" |}, <[dkey := q]> db).

(** An abort that succeeds pulls the token from every document. *)
Definition example_abort (f : @flusher unit) (t : @transaction unit)
    (revnos : slice Z) (pull : gmap string (@transaction unit)) (db : queues)
    : option error * @flusher unit * queues :=
  (None, f, filter (λ tok, tok ≠ example_tokenFor t) <$> db).

(** An abort that fails: the connection is lost. *)
Definition failing_abort (f : @flusher unit) (t : @transaction unit)
    (revnos : slice Z) (pull : gmap string (@transaction unit)) (db : queues)
    : option error * @flusher unit * queues :=
  (Some "EOF", f, db).

(** [%q] for a string without characters to escape. *)
Definition example_Quote (s : string) : string :=
  String (ascii_of_nat 34) (s +:+ String (ascii_of_nat 34) EmptyString).

(** The document 0 of "accounts" with two transactions queued, a runner
    whose limit is 2, and a third transaction. *)
Definition accounts_0 : docKey := {| C := "accounts"; Id := "0" |}.

Definition example_db : queues := {[ accounts_0 := ["aa_1"; "bb_2"] ]}.

Definition example_flusher : @flusher unit :=
  {| runner := SetOptions (NewRunner (Database_C "juju" "txns"))
                          {| MaxTxnQueueLength := 2 |};
     queue := ∅ |}.

Definition example_txn : @transaction unit :=
  {| txn_Id := "cc"; State := tpreparing; Ops := []; Nonce := "3" |}.

Definition example_check abort :=
  apply_and_check (λ _, []) (λ _ _, None) example_Quote example_Apply abort
                  example_flusher example_txn accounts_0 ∅ example_db.



(** The two premises on the calls outside the patch are needed.  An
    abort that returns nil without pulling the token leaves the queue one
    longer; so does an abort that pulls it after an [Apply] that added a
    second token with it.  In both runs the flusher returns the error of
    the limit. *)
Definition idle_abort (f : @flusher unit) (t : @transaction unit)
    (revnos : slice Z) (pull : gmap string (@transaction unit)) (db : queues)
    : option error * @flusher unit * queues :=
  (None, f, db).

Definition double_Apply (dkey : docKey) (t : @transaction unit) (db : queues)
    : option error * docInfo * queues :=
  let q := queue_of db dkey ++ ["dd_4"; example_tokenFor t] in
  (None, {| Queue := Some q; Revno := 2; Remove := "" |}, <[dkey := q]> db).

Example premises_needed :
  ((example_check idle_abort).1.1.1
   = Returns None (Some (too_many_transactions example_Quote accounts_0 3))
   ∧ queue_of (example_check idle_abort).2 accounts_0 = ["aa_1"; "bb_2"; "cc_3"])
  ∧ let check := apply_and_check (λ _, []) (λ _ _, None) example_Quote double_Apply
                   example_abort example_flusher example_txn accounts_0 ∅ example_db in
    check.1.1.1 = Returns None (Some (too_many_transactions example_Quote accounts_0 4))
    ∧ queue_of check.2 accounts_0 = ["aa_1"; "bb_2"; "dd_4"].
Proof. repeat split; by vm_compute. Qed.

Example too_many_transactions_message :
  too_many_transactions example_Quote accounts_0 1001
  = "txn-queue for 0 in " +:+ example_Quote "accounts"
    +:+ " has too many transactions (1001)".
Proof. reflexivity. Qed.

Example TestTxnQueueUnlimited (f : @flusher unit) :
  MaxTxnQueueLength (opts (runner f)) = 0%Z →
  ∀ db, (apply_and_check (λ _, []) (λ _ _, None) example_Quote example_Apply
           failing_abort f example_txn accounts_0 ∅ db).1.1.1
        = GoesOn (example_Apply accounts_0 example_txn db).1.2.
Proof.
  intros Hmax db. unfold apply_and_check, example_Apply. rewrite Hmax.
  by rewrite decide_False by lia.
Qed.

(** A queue of exactly the limit is accepted: with two transactions
    queued and a limit of 3, the third goes on. *)
Example txn_queue_at_limit :
  (apply_and_check (λ _, []) (λ _ _, None) example_Quote example_Apply failing_abort
     {| runner := SetOptions (NewRunner (Database_C "juju" "txns"))
                             {| MaxTxnQueueLength := 3 |};
        queue := ∅ |}
     example_txn accounts_0 ∅ example_db).1.1.1
  = GoesOn {| Queue := Some ["aa_1"; "bb_2"; "cc_3"]; Revno := 2; Remove := "" |}.
Proof. reflexivity. Qed.

End Txn.

(** * worker/peergrouper: the topology computer *)

Module Computer.

(** A ControllerMember as the Snapshot Source observes it; its id is the
    key under which the snapshot holds it. *)
Record ControllerMember := {
  addresses : list string;
  wants_controller : bool;
  alive : bool
}.

(** A ReplicaSetMember; its id, that of its ControllerMember, is the key
    under which the topology holds it.  The store sees [voting] as
    priority 1 or 0. *)
Record ReplicaSetMember := {
  address : string;
  voting : bool;
  tags : list (string * string)
}.

Global Instance ReplicaSetMember_eq_dec : EqDecision ReplicaSetMember.
Proof. solve_decision. Defined.

(** A Topology is a set of ReplicaSetMembers keyed by id, a [gmap]; the
    AppliedConfiguration is the last one written with its version stamp. *)
Record AppliedConfiguration := {
  topology : gmap nat ReplicaSetMember;
  version : nat
}.

(** What the computer answers: "no change", one next Topology, or the
    fatal condition. *)
Inductive decision :=
  | NoChange
  | Next (t : gmap nat ReplicaSetMember)
  | Fatal.

(** The voters of a topology; their count is derived, never set. *)
Definition voter_ids (t : gmap nat ReplicaSetMember) : gset nat :=
  dom (filter (λ p, voting p.2 = true) t).

Definition voter_count (t : gmap nat ReplicaSetMember) : nat := size (voter_ids t).

(** The majority of a voter set of size [n]: the ceiling of (n+1)/2. *)
Definition majority (n : nat) : nat := n / 2 + 1.

(** Candidates are ordered by id: the lowest id is chosen first, the
    highest held back. *)
Definition lowest (s : gset nat) : option nat :=
  foldr (λ i acc, Some (from_option (Nat.min i) i acc)) None (elements s).

Definition highest (s : gset nat) : option nat :=
  foldr (λ i acc, Some (from_option (Nat.max i) i acc)) None (elements s).

(** The first of the steps that applies. *)
Definition first_of (steps : list (option (gmap nat ReplicaSetMember)))
    : option (gmap nat ReplicaSetMember) :=
  head (omap id steps).

Section Computer.

(** The tags that tie a member to its ControllerMember are opaque. *)
Variable tags_of : nat → list (string * string).

(** Eligible: wants the controller role and has a resolvable address (the
    rules of section 4.1 name no other condition; the liveness indicator
    is carried, not consulted). *)
Definition eligible (cm : ControllerMember) : Prop :=
  wants_controller cm = true ∧ addresses cm ≠ [].

Global Instance eligible_dec cm : Decision (eligible cm).
Proof. unfold eligible. apply _. Defined.

Definition eligible_members (snapshot : gmap nat ControllerMember)
    : gmap nat ControllerMember :=
  filter (λ p, eligible p.2) snapshot.

(** The member of a ControllerMember, with its single chosen address. *)
Definition member_for (i : nat) (cm : ControllerMember) (v : bool) : ReplicaSetMember :=
  {| address := default "" (head (addresses cm)); voting := v; tags := tags_of i |}.

Definition set_voting (v : bool) (i : nat) (t : gmap nat ReplicaSetMember)
    : gmap nat ReplicaSetMember :=
  alter (λ m, {| address := address m; voting := v; tags := tags m |}) i t.

(** Make [i] a voter: a member gets the vote, a controller that is not a
    member yet joins as a voter. *)
Definition promote (snapshot : gmap nat ControllerMember) (i : nat)
    (t : gmap nat ReplicaSetMember) : gmap nat ReplicaSetMember :=
  match t !! i, snapshot !! i with
  | Some _, _ => set_voting true i t
  | None, Some cm => <[i := member_for i cm true]> t
  | None, None => t
  end.

(** Address-only updates of the members whose controller has an address. *)
Definition readdress (snapshot : gmap nat ControllerMember)
    (t : gmap nat ReplicaSetMember) : gmap nat ReplicaSetMember :=
  map_imap (λ i m,
    Some match snapshot !! i ≫= (λ cm, head (addresses cm)) with
         | Some a => {| address := a; voting := voting m; tags := tags m |}
         | None => m
         end) t.

(** The ideal target: every eligible controller is a voting member; if
    that makes an even count, the candidate with the highest id is held
    back as non-voting (rule 1). *)
Definition ideal (elig : gmap nat ControllerMember) : gmap nat ReplicaSetMember :=
  let all := map_imap (λ i cm, Some (member_for i cm true)) elig in
  if Nat.even (size elig) then
    match highest (dom elig) with
    | Some h => set_voting false h all
    | None => all
    end
  else all.

(** Modelled from the spec: the Topology Computer of the peergrouper
    (section 4.1; its code is not under src/).  Given the observed
    ControllerMembers and the AppliedConfiguration, if there is one, it
    answers "no change", one next Topology, or the fatal condition:

    - with no eligible member it is fatal;
    - with no prior configuration the first Topology is the ideal target
      (scenario 1);
    - a voter count that is even is mended by one vote, given to the
      lowest candidate or else taken from the lowest ineligible voter if
      a majority of the previous voters remains; if neither can be done
      no topology satisfies rule 1, which is fatal;
    - otherwise the vote changes hands in pairs, so that the count stays
      odd (rule 1): an ineligible voter is demoted and a replacement
      promoted in the same step (scenario 3), or two candidates are
      promoted, or two ineligible voters demoted, a demotion only if a
      majority of the previous voters remains (rule 3);
    - failing that, a member that neither votes nor is eligible is
      removed (rule 5), or an eligible controller joins as non-voting
      (scenario 2), one member a step (rule 2);
    - address-only updates accompany any step, and make a step of their
      own when nothing else changes. *)
Definition compute (snapshot : gmap nat ControllerMember)
    (applied : option AppliedConfiguration) : decision :=
  let elig := eligible_members snapshot in
  if decide (elig = ∅) then Fatal else
  match applied with
  | None => Next (ideal elig)
  | Some ac =>
      let t := topology ac in
      let base := readdress snapshot t in
      let n := voter_count t in
      let bad := voter_ids t ∖ dom elig in
      let cand := dom elig ∖ voter_ids t in
      let gone := dom t ∖ voter_ids t ∖ dom elig in
      let new := dom elig ∖ dom t in
      if Nat.even n then
        let promote_one := c ← lowest cand; Some (promote snapshot c base) in
        let demote_one :=
          b ← lowest bad; guard (majority n ≤ n - 1)%nat;;
          Some (set_voting false b base) in
        from_option Next Fatal (first_of [promote_one; demote_one])
      else
        let swap :=
          b ← lowest bad; c ← lowest cand;
          guard (majority n ≤ n - 1)%nat;;
          Some (promote snapshot c (set_voting false b base)) in
        let grow :=
          c1 ← lowest cand; c2 ← lowest (cand ∖ {[c1]});
          Some (promote snapshot c2 (promote snapshot c1 base)) in
        let shrink :=
          b1 ← lowest bad; b2 ← lowest (bad ∖ {[b1]});
          guard (majority n ≤ n - 2)%nat;;
          Some (set_voting false b2 (set_voting false b1 base)) in
        let remove := g ← lowest gone; Some (delete g base) in
        let add :=
          i ← lowest new; cm ← snapshot !! i;
          Some (<[i := member_for i cm false]> base) in
        let refresh := guard (base ≠ t);; Some base in
        from_option Next NoChange (first_of [swap; grow; shrink; remove; add; refresh])
  end.

(** ** Voters under the operations on a topology *)

Lemma elem_of_voter_ids i t :
  i ∈ voter_ids t ↔ ∃ m, t !! i = Some m ∧ voting m = true.
Proof.
  unfold voter_ids. rewrite elem_of_dom. unfold is_Some.
  setoid_rewrite map_lookup_filter_Some. naive_solver.
Qed.

Lemma voter_ids_subseteq t : voter_ids t ⊆ dom t.
Proof.
  intros i [m [Hm _]]%elem_of_voter_ids. apply elem_of_dom. by exists m.
Qed.

Lemma voter_ids_readdress snapshot t : voter_ids (readdress snapshot t) = voter_ids t.
Proof.
  apply set_eq. intros i. rewrite !elem_of_voter_ids. unfold readdress.
  setoid_rewrite map_lookup_imap.
  destruct (t !! i) as [m|]; simpl; [|naive_solver].
  destruct (snapshot !! i ≫= _); split; intros (m' & ? & ?); simplify_eq/=; eauto.
Qed.

Lemma dom_readdress snapshot t : dom (readdress snapshot t) = dom t.
Proof.
  apply set_eq. intros i. rewrite !elem_of_dom. unfold readdress.
  rewrite map_lookup_imap. destruct (t !! i); simpl; split; intros [? ?]; eauto; done.
Qed.

Lemma voter_ids_set_voting_false i t :
  voter_ids (set_voting false i t) = voter_ids t ∖ {[i]}.
Proof.
  apply set_eq. intros j. rewrite elem_of_difference, !elem_of_voter_ids, elem_of_singleton.
  unfold set_voting. rewrite lookup_alter.
  case_decide as Hij; [subst j|].
  - destruct (t !! i); simpl; naive_solver.
  - naive_solver.
Qed.

Lemma voter_ids_set_voting_true i t :
  i ∈ dom t → voter_ids (set_voting true i t) = voter_ids t ∪ {[i]}.
Proof.
  intros [m Hm]%elem_of_dom.
  apply set_eq. intros j. rewrite elem_of_union, !elem_of_voter_ids, elem_of_singleton.
  unfold set_voting. rewrite lookup_alter.
  case_decide as Hij; [subst j|].
  - rewrite Hm. simpl. naive_solver.
  - naive_solver.
Qed.

Lemma voter_ids_insert i m t :
  voter_ids (<[i := m]> t)
  = if voting m then voter_ids t ∪ {[i]} else voter_ids t ∖ {[i]}.
Proof.
  apply set_eq. intros j.
  assert (j ∈ voter_ids (<[i := m]> t)
          ↔ (i = j ∧ voting m = true) ∨ (i ≠ j ∧ j ∈ voter_ids t)) as ->.
  { rewrite !elem_of_voter_ids, lookup_insert.
    destruct (decide (i = j)); naive_solver. }
  destruct (voting m);
    rewrite ?elem_of_union, ?elem_of_difference, elem_of_singleton;
    destruct (decide (i = j)); naive_solver.
Qed.

Lemma voter_ids_delete i t : voter_ids (delete i t) = voter_ids t ∖ {[i]}.
Proof.
  apply set_eq. intros j.
  rewrite elem_of_difference, !elem_of_voter_ids, elem_of_singleton.
  rewrite lookup_delete. destruct (decide (i = j)); naive_solver.
Qed.

Lemma voter_ids_promote snapshot c t :
  c ∈ dom snapshot → voter_ids (promote snapshot c t) = voter_ids t ∪ {[c]}.
Proof.
  intros [cm Hcm]%elem_of_dom. unfold promote. rewrite Hcm.
  destruct (t !! c) as [m|] eqn:Hm.
  - apply voter_ids_set_voting_true, elem_of_dom. by exists m.
  - by rewrite voter_ids_insert.
Qed.

Lemma pick_elem (f : nat → nat → nat) (l : list nat) i :
  (∀ a b, f a b = a ∨ f a b = b) →
  foldr (λ i acc, Some (from_option (f i) i acc)) None l = Some i → i ∈ l.
Proof.
  intros Hf. revert i. induction l as [|a l IH]; intros i; simpl; [done|].
  destruct (foldr _ None l) as [b|]; simpl; intros [= <-].
  - destruct (Hf a b) as [-> | ->]; [left | right; by apply IH].
  - left.
Qed.

Lemma lowest_elem s i : lowest s = Some i → i ∈ s.
Proof.
  intros H. apply elem_of_elements. revert H. apply pick_elem. lia.
Qed.

Lemma highest_elem s i : highest s = Some i → i ∈ s.
Proof.
  intros H. apply elem_of_elements. revert H. apply pick_elem. lia.
Qed.

Lemma highest_None s : highest s = None → s = ∅.
Proof.
  unfold highest. intros H. apply leibniz_equiv, elements_empty_inv.
  by destruct (elements s).
Qed.

Lemma first_of_elem steps t : first_of steps = Some t → Some t ∈ steps.
Proof.
  unfold first_of. intros H%head_Some_elem_of.
  apply list_elem_of_omap in H as (step & Hstep & Hid). simpl in Hid. by subst.
Qed.

Lemma size_add (X : gset nat) c : c ∉ X → size (X ∪ {[c]}) = S (size X).
Proof.
  intros Hc. rewrite size_union by set_solver. rewrite size_singleton. lia.
Qed.

Lemma size_remove (X : gset nat) b :
  b ∈ X → S (size (X ∖ {[b]})) = size X.
Proof.
  intros Hb. rewrite size_difference by set_solver. rewrite size_singleton.
  assert (size X ≠ 0) by (apply size_non_empty_iff; set_solver). lia.
Qed.

Lemma count_readdress snapshot t :
  voter_count (readdress snapshot t) = voter_count t.
Proof. unfold voter_count. by rewrite voter_ids_readdress. Qed.

Lemma count_promote snapshot c t :
  c ∈ dom snapshot → c ∉ voter_ids t →
  voter_count (promote snapshot c t) = S (voter_count t).
Proof.
  intros Hc Hnot. unfold voter_count.
  rewrite voter_ids_promote by done. by apply size_add.
Qed.

Lemma count_demote b t :
  b ∈ voter_ids t → S (voter_count (set_voting false b t)) = voter_count t.
Proof.
  intros Hb. unfold voter_count.
  rewrite voter_ids_set_voting_false. by apply size_remove.
Qed.

Lemma count_without i t t' :
  i ∉ voter_ids t → voter_ids t' = voter_ids t ∖ {[i]} →
  voter_count t' = voter_count t.
Proof.
  intros Hi Ht'. unfold voter_count. rewrite Ht'. f_equal. set_solver.
Qed.

Lemma eligible_in_snapshot snapshot : dom (eligible_members snapshot) ⊆ dom snapshot.
Proof. apply subseteq_dom, map_filter_subseteq. Qed.

Lemma voter_ids_ideal elig :
  voter_ids (map_imap (λ i cm, Some (member_for i cm true)) elig) = dom elig.
Proof.
  apply set_eq. intros i. rewrite elem_of_voter_ids, elem_of_dom.
  setoid_rewrite map_lookup_imap.
  destruct (elig !! i) as [cm|]; simpl.
  - split; [by eexists | by eexists].
  - split; [by intros (? & ? & ?) | by intros [? ?]].
Qed.

Lemma count_ideal elig :
  elig ≠ ∅ → Nat.Odd (voter_count (ideal elig)).
Proof.
  intros Hne. unfold ideal, voter_count.
  assert (size elig ≠ 0) as Hsize by by apply map_size_non_empty_iff.
  destruct (Nat.even (size elig)) eqn:Heven.
  - apply Nat.even_spec in Heven as [k Hk].
    destruct (highest (dom elig)) as [h|] eqn:Hh.
    + apply highest_elem in Hh.
      rewrite voter_ids_set_voting_false, voter_ids_ideal.
      pose proof (size_remove _ _ Hh) as Hrem. rewrite size_dom in Hrem.
      exists (k - 1). lia.
    + apply highest_None in Hh. apply dom_empty_inv_L in Hh. done.
  - rewrite voter_ids_ideal, size_dom.
    apply Nat.odd_spec. by rewrite <- Nat.negb_even, Heven.
Qed.

(** C1.  Every Topology the computer emits, for any observed
    ControllerMember set and any AppliedConfiguration or none, has an odd
    number of voting members, and at least one. *)
Theorem compute_odd_voters snapshot applied t :
  compute snapshot applied = Next t →
  Nat.Odd (voter_count t) ∧ (1 ≤ voter_count t)%nat.
Proof.
  intros Hnext.
  cut (Nat.Odd (voter_count t)); [intros [k Hk]; split; [by exists k | lia]|].
  revert Hnext. unfold compute.
  destruct (decide (eligible_members snapshot = ∅)) as [|Helig]; [done|].
  destruct applied as [ac|]; [|intros [= <-]; by apply count_ideal].
  pose proof (eligible_in_snapshot snapshot) as Hsub.
  pose proof (voter_ids_readdress snapshot (topology ac)) as Hbase.
  pose proof (count_readdress snapshot (topology ac)) as Hn.
  pose proof (dom_readdress snapshot (topology ac)) as Hdom.
  pose proof (voter_ids_subseteq (topology ac)) as Hvot.
  set (base := readdress snapshot (topology ac)) in *.
  set (n := voter_count (topology ac)) in *.
  destruct (Nat.even n) eqn:Hpar.
  - apply Nat.even_spec in Hpar as [k Hk].
    destruct (first_of _) as [t'|] eqn:Hfirst; simpl; [intros [= <-]|done].
    apply first_of_elem in Hfirst.
    rewrite !elem_of_cons, elem_of_nil in Hfirst.
    destruct Hfirst as [Hstep|[Hstep|[]]]; symmetry in Hstep.
    + apply bind_Some in Hstep as (c & Hc%lowest_elem & [= <-]).
      exists k. rewrite count_promote; [lia | set_solver | set_solver].
    + apply bind_Some in Hstep as (b & Hb%lowest_elem & Hstep).
      case_guard; simplify_eq/=.
      assert (b ∈ voter_ids base) as Hbv by set_solver.
      pose proof (count_demote _ _ Hbv). exists (k - 1). lia.
  - assert (Nat.Odd n) as [k Hk].
    { apply Nat.odd_spec. by rewrite <- Nat.negb_even, Hpar. }
    destruct (first_of _) as [t'|] eqn:Hfirst; simpl; [intros [= <-]|done].
    apply first_of_elem in Hfirst.
    rewrite !elem_of_cons, elem_of_nil in Hfirst.
    destruct Hfirst as [Hstep|[Hstep|[Hstep|[Hstep|[Hstep|[Hstep|[]]]]]]];
      symmetry in Hstep.
    + apply bind_Some in Hstep as (b & Hb%lowest_elem & Hstep).
      apply bind_Some in Hstep as (c & Hc%lowest_elem & Hstep).
      case_guard; simplify_eq/=.
      assert (b ∈ voter_ids base) as Hbv by set_solver.
      pose proof (count_demote _ _ Hbv).
      exists k. rewrite count_promote; [lia | set_solver |].
      rewrite voter_ids_set_voting_false. set_solver.
    + apply bind_Some in Hstep as (c1 & Hc1%lowest_elem & Hstep).
      apply bind_Some in Hstep as (c2 & Hc2%lowest_elem & [= <-]).
      exists (S k). rewrite !count_promote; [lia | set_solver.. |].
      rewrite voter_ids_promote by set_solver. set_solver.
    + apply bind_Some in Hstep as (b1 & Hb1%lowest_elem & Hstep).
      apply bind_Some in Hstep as (b2 & Hb2%lowest_elem & Hstep).
      case_guard; simplify_eq/=.
      assert (b1 ∈ voter_ids base) as Hbv1 by set_solver.
      assert (b2 ∈ voter_ids (set_voting false b1 base)) as Hbv2.
      { rewrite voter_ids_set_voting_false. set_solver. }
      pose proof (count_demote _ _ Hbv1). pose proof (count_demote _ _ Hbv2).
      exists (k - 1). lia.
    + apply bind_Some in Hstep as (g & Hg%lowest_elem & [= <-]).
      exists k. rewrite (count_without g base); [lia | set_solver |].
      apply voter_ids_delete.
    + apply bind_Some in Hstep as (i & Hi%lowest_elem & Hstep).
      apply bind_Some in Hstep as (cm & Hcm & [= <-]).
      exists k. rewrite (count_without i base); [lia | set_solver |].
      by rewrite voter_ids_insert.
    + case_guard; simplify_eq/=. exists k. lia.
Qed.

End Computer.

(** ** The scenarios of the specification

    Controllers 1 to 4 with one address each; tags are left empty. *)

Definition controller (a : string) (wants : bool) : ControllerMember :=
  {| addresses := [a]; wants_controller := wants; alive := true |}.

Definition voter (a : string) : ReplicaSetMember :=
  {| address := a; voting := true; tags := [] |}.

Definition non_voter (a : string) : ReplicaSetMember :=
  {| address := a; voting := false; tags := [] |}.

Definition three_controllers : gmap nat ControllerMember :=
  {[ 1 := controller "10.0.0.1" true; 2 := controller "10.0.0.2" true;
     3 := controller "10.0.0.3" true ]}.

Definition three_voters : gmap nat ReplicaSetMember :=
  {[ 1 := voter "10.0.0.1"; 2 := voter "10.0.0.2"; 3 := voter "10.0.0.3" ]}.

(** Scenario 1: three healthy controllers, no prior configuration. *)
Example scenario_1 :
  compute (λ _, []) three_controllers None = Next three_voters.
Proof. by vm_compute. Qed.

(** Scenario 2: a fourth controller joins a converged group of three
    voters, as non-voting; nothing changes after that. *)
Example scenario_2 :
  let snapshot := <[4 := controller "10.0.0.4" true]> three_controllers in
  let next := <[4 := non_voter "10.0.0.4"]> three_voters in
  compute (λ _, []) snapshot (Some {| topology := three_voters; version := 1 |})
  = Next next
  ∧ compute (λ _, []) snapshot (Some {| topology := next; version := 2 |})
    = NoChange.
Proof. split; by vm_compute. Qed.

(** Scenario 3: controller 2 no longer wants the role; it is demoted and
    controller 4 takes the vote in the same step. *)
Definition scenario_3_snapshot : gmap nat ControllerMember :=
  <[2 := controller "10.0.0.2" false]>
    (<[4 := controller "10.0.0.4" true]> three_controllers).

Definition scenario_3_next : gmap nat ReplicaSetMember :=
  {[ 1 := voter "10.0.0.1"; 2 := non_voter "10.0.0.2"; 3 := voter "10.0.0.3";
     4 := voter "10.0.0.4" ]}.

Example scenario_3 :
  compute (λ _, []) scenario_3_snapshot
          (Some {| topology := three_voters; version := 1 |})
  = Next scenario_3_next.
Proof. by vm_compute. Qed.

(** No eligible controller: fatal. *)
Example no_eligible_member :
  compute (λ _, []) {[ 1 := controller "10.0.0.1" false ]}
          (Some {| topology := three_voters; version := 1 |})
  = Fatal.
Proof. by vm_compute. Qed.

Lemma compute_odd_voters_witness :
  Nat.Odd (voter_count scenario_3_next) ∧ (1 ≤ voter_count scenario_3_next)%nat.
Proof.
  apply (compute_odd_voters (λ _, []) scenario_3_snapshot
           (Some {| topology := three_voters; version := 1 |})).
  by vm_compute.
Defined.

End Computer.

(** * worker/peergrouper: the address publisher *)

Module Publisher.

(** A host:port tuple. *)
Definition HostPort : Type := string * N.

(** Order-insensitive, value-based equality: the same set of host:ports in
    any order. *)
Definition same_set (l1 l2 : list HostPort) : Prop :=
  (list_to_set l1 : gset HostPort) = list_to_set l2.

Global Instance same_set_dec l1 l2 : Decision (same_set l1 l2).
Proof. unfold same_set. apply _. Defined.

(** The publisher between two cycles: PublishedAddresses, the last list
    announced to the Hub (none before the first announcement), and the
    calls of [Publish(topic, []HostPort)] made so far, oldest first. *)
Record publisher := {
  published : option (list HostPort);
  hub : list (string * list HostPort)
}.

Definition initial : publisher := {| published := None; hub := [] |}.

Section Cycle.

(** How the address of a controller is chosen is left to a priority list
    the specification does not give. *)
Context {ControllerMember : Type}.
Variable derive : list ControllerMember → list HostPort.
Variable topic : string.

(** Modelled from the spec: the Address Publisher of the peergrouper (its
    code, [CachingAPIHostPortsSetter] and the publishing step of the
    worker, is not under src/).  Given the current ControllerMember set,
    derive the host:port list and, only if the list differs from the
    previously published one, push the new list to the Hub. *)
Definition publish_cycle (p : publisher) (members : list ControllerMember) : publisher :=
  let addrs := derive members in
  match published p with
  | Some prev =>
      if decide (same_set prev addrs) then p
      else {| published := Some addrs; hub := hub p ++ [(topic, addrs)] |}
  | None => {| published := Some addrs; hub := hub p ++ [(topic, addrs)] |}
  end.

(** A sequence of cycles, one observed ControllerMember set each. *)
Definition run (p : publisher) (cycles : list (list ControllerMember)) : publisher :=
  foldl publish_cycle p cycles.


(** The set of host:ports of a list. *)
Definition set_of (addrs : list HostPort) : gset HostPort := list_to_set addrs.


(** The number of stretches of consecutive cycles that observe the set
    [s]: the cycles that observe [s] after a cycle that did not; [prev] is
    the set before the first of [sets], if any. *)
Fixpoint stretches (s : gset HostPort) (prev : option (gset HostPort))
    (sets : list (gset HostPort)) : nat :=
  match sets with
  | [] => 0
  | s' :: sets =>
      (if decide (s' = s ∧ prev ≠ Some s) then 1 else 0) + stretches s (Some s') sets
  end.









End Cycle.

(** Two controllers behind one address each; the observed set is the
    list of its host:ports. *)
Definition hp_a : HostPort := ("10.0.0.1", 17070%N).
Definition hp_b : HostPort := ("10.0.0.2", 17070%N).


(** A set that is observed again after another one was published is not
    the previously published one: over [{a}], [{a, b}], [{a}] there are
    two stretches of [{a}] and three calls of Publish. *)
Example returning_set :
  hub (run id "apiserver.details" initial [[hp_a]; [hp_a; hp_b]; [hp_a]])
  = [("apiserver.details", [hp_a]); ("apiserver.details", [hp_a; hp_b]);
     ("apiserver.details", [hp_a])]
  ∧ stretches {[hp_a]} None
      (set_of <$> [[hp_a]; [hp_a; hp_b]; [hp_a]]) = 2%nat.
Proof. split; by vm_compute. Qed.

End Publisher.

(** * worker/peergrouper: the manifold

    [manifold_test.go] is under src/, the manifold it tests is not. *)

Module Manifold.

(** [dependency.ErrMissing], or any other error by its message. *)
Inductive error := ErrMissing | errors_New (msg : string).

(** [params.StateServingInfo], with the two ports the test sets. *)
Record StateServingInfo := { StatePort : Z; APIPort : Z }.

Section Peergrouper.

(** The clock, the state, the hub and the worker are opaque to the
    manifold. *)
Context {Clock State Hub Worker : Type}.

(** An agent, by what [CurrentConfig().StateServingInfo()] returns: the
    info, or nothing when the second result is false. *)
Record Agent := { agent_StateServingInfo : option StateServingInfo }.

(** A state tracker, by what [Use()] returns. *)
Record StateTracker := { Use : State + error }.

(** [peergrouper.Config] as [TestStart] expects it: [State] is
    [StateShim{st}], [APIHostPortsSetter] the caching setter around [st],
    and [MongoSession] the empty [MongoSessionShim{}]. *)
Record Config := {
  cfg_State : State;
  cfg_MongoSession : unit;
  cfg_APIHostPortsSetter : State;
  cfg_Clock : Clock;
  cfg_Hub : Hub;
  SupportsSpaces : bool;
  MongoPort : Z;
  cfg_APIPort : Z
}.

Record ManifoldConfig := {
  AgentName : string;
  ClockName : string;
  StateName : string;
  mc_Hub : Hub;
  NewWorker : Config → Worker + error;
  ControllerSupportsSpaces : State → bool * option error
}.

(** A [dependency.Context]: the resources that are available, by name,
    one map for each type [Get] can be asked to fill. *)
Record Context := {
  agents : gmap string Agent;
  clocks : gmap string Clock;
  trackers : gmap string StateTracker
}.

(** [context.Get(name, &out)]: a resource that is not available is
    [dependency.ErrMissing]. *)
Definition Get {A} (resources : gmap string A) (name : string) : A + error :=
  match resources !! name with
  | Some r => inl r
  | None => inr ErrMissing
  end.

Record manifold := {
  Inputs : list string;
  Start : Context → Worker + error
}.

(** Modelled from the spec: [Manifold] and its start function of
    worker/peergrouper (manifold.go is not under src/), from the
    configuration surface of the specification and from what
    [TestInputs], [TestMissingInputs] and [TestStart] of
    manifold_test.go check.  The start function gets the agent, the
    clock and the state tracker from the context, takes the state from
    the tracker and the serving ports from the agent's configuration,
    asks whether the controller supports spaces and hands the worker
    constructor its [Config]. *)
Definition start (config : ManifoldConfig) (context : Context) : Worker + error :=
  match Get (agents context) (AgentName config) with
  | inr err => inr err
  | inl agent =>
  match Get (clocks context) (ClockName config) with
  | inr err => inr err
  | inl clock =>
  match Get (trackers context) (StateName config) with
  | inr err => inr err
  | inl stTracker =>
  match Use stTracker with
  | inr err => inr err
  | inl st =>
  match agent_StateServingInfo agent with
  | None => inr (errors_New "state serving info missing from agent config")
  | Some info =>
  match ControllerSupportsSpaces config st with
  | (_, Some err) => inr err
  | (supportsSpaces, None) =>
      NewWorker config
        {| cfg_State := st;
           cfg_MongoSession := ();
           cfg_APIHostPortsSetter := st;
           cfg_Clock := clock;
           cfg_Hub := mc_Hub config;
           SupportsSpaces := supportsSpaces;
           MongoPort := StatePort info;
           cfg_APIPort := APIPort info |}
  end end end end end end.

Definition Manifold (config : ManifoldConfig) : manifold :=
  {| Inputs := [AgentName config; ClockName config; StateName config];
     Start := start config |}.

(** One of the inputs of the manifold is not available in the context. *)
Definition missing_input (config : ManifoldConfig) (context : Context) : Prop :=
  agents context !! AgentName config = None
  ∨ clocks context !! ClockName config = None
  ∨ trackers context !! StateName config = None.

(** The [Config] C7 describes: MongoPort and APIPort are the StatePort
    and the APIPort of the agent's StateServingInfo, SupportsSpaces is the
    answer of the ControllerSupportsSpaces check, and it carries the
    clock and the hub; the state is the one of the tracker. *)
Definition config_for (st : State) (clock : Clock) (hub : Hub)
    (supportsSpaces : bool) (info : StateServingInfo) : Config :=
  {| cfg_State := st;
     cfg_MongoSession := ();
     cfg_APIHostPortsSetter := st;
     cfg_Clock := clock;
     cfg_Hub := hub;
     SupportsSpaces := supportsSpaces;
     MongoPort := StatePort info;
     cfg_APIPort := APIPort info |}.

(** C7.  The manifold declares the inputs agent, clock and state, under
    the names of its configuration.  [Start] fails with
    [dependency.ErrMissing] when one of them is not available.  When the
    three are available, the tracker gives its state, the agent has a
    StateServingInfo and the ControllerSupportsSpaces check answers,
    [Start] returns what the worker constructor returns for the [Config]
    whose MongoPort and APIPort are the StatePort and the APIPort of the
    StateServingInfo, whose SupportsSpaces is the answer of the check,
    and which carries the clock of the context and the hub of the
    configuration; and [Start] succeeds in no other way. *)
Theorem Manifold_start (config : ManifoldConfig) (context : Context) :
  Inputs (Manifold config) ≡ₚ [AgentName config; ClockName config; StateName config]
  ∧ (missing_input config context → Start (Manifold config) context = inr ErrMissing)
  ∧ (∀ agent clock stTracker st info supportsSpaces,
       agents context !! AgentName config = Some agent →
       clocks context !! ClockName config = Some clock →
       trackers context !! StateName config = Some stTracker →
       Use stTracker = inl st →
       agent_StateServingInfo agent = Some info →
       ControllerSupportsSpaces config st = (supportsSpaces, None) →
       Start (Manifold config) context
       = NewWorker config (config_for st clock (mc_Hub config) supportsSpaces info))
  ∧ (∀ w, Start (Manifold config) context = inl w →
     ∃ agent clock stTracker st info supportsSpaces,
       agents context !! AgentName config = Some agent
       ∧ clocks context !! ClockName config = Some clock
       ∧ trackers context !! StateName config = Some stTracker
       ∧ Use stTracker = inl st
       ∧ agent_StateServingInfo agent = Some info
       ∧ ControllerSupportsSpaces config st = (supportsSpaces, None)
       ∧ NewWorker config (config_for st clock (mc_Hub config) supportsSpaces info)
         = inl w).
Proof.
  split; [|split; [|split]].
  - done.
  - simpl. unfold start, Get.
    intros [Hmiss | [Hmiss | Hmiss]].
    + by rewrite Hmiss.
    + rewrite Hmiss. by destruct (agents context !! AgentName config).
    + rewrite Hmiss.
      destruct (agents context !! AgentName config); [|done].
      by destruct (clocks context !! ClockName config).
  - intros agent clock stTracker st info supportsSpaces
           Hagent Hclock Htracker Huse Hinfo Hspaces.
    simpl. unfold start, Get.
    by rewrite Hagent, Hclock, Htracker, Huse, Hinfo, Hspaces.
  - intros w. simpl. unfold start, Get.
    destruct (agents context !! AgentName config) as [agent|]; [|done].
    destruct (clocks context !! ClockName config) as [clock|]; [|done].
    destruct (trackers context !! StateName config) as [stTracker|]; [|done].
    destruct (Use stTracker) as [st|] eqn:Huse; [|done].
    destruct (agent_StateServingInfo agent) as [info|] eqn:Hinfo; [|done].
    destruct (ControllerSupportsSpaces config st) as [supportsSpaces [err|]] eqn:Hsup;
      [done|].
    intros Hw. by exists agent, clock, stTracker, st, info, supportsSpaces.
Qed.

End Peergrouper.

(** ** The suite of manifold_test.go

    The clock and the hub are the units, the state is a number ([s.st]
    is 0), and the stub constructor returns the [Config] it was called
    with as the worker. *)

Definition test_Config : Type := @Config unit nat unit.

Definition test_ManifoldConfig : @ManifoldConfig unit nat unit test_Config :=
  {| AgentName := "agent";
     ClockName := "clock";
     StateName := "state";
     mc_Hub := ();
     NewWorker := λ config : test_Config, inl config;
     ControllerSupportsSpaces := λ st : nat,
       if decide (st = 0) then (true, None)
       else (false, Some (errors_New "invalid state")) |}.

Definition test_manifold : @manifold unit nat test_Config :=
  Manifold test_ManifoldConfig.

Definition test_context : @Context unit nat :=
  {| agents := {[ "agent" :=
                    {| agent_StateServingInfo :=
                         Some {| StatePort := 1234; APIPort := 5678 |} |} ]};
     clocks := {[ "clock" := () ]};
     trackers := {[ "state" := {| Use := inl 0 |} ]} |}.

(** [newContext] with [input] overlaid by [dependency.ErrMissing]. *)
Definition missing (input : string) (context : @Context unit nat) : @Context unit nat :=
  {| agents := delete input (agents context);
     clocks := delete input (clocks context);
     trackers := delete input (trackers context) |}.

Definition expectedInputs : list string := ["agent"; "clock"; "state"].

Example TestInputs : Inputs test_manifold ≡ₚ expectedInputs.
Proof. reflexivity. Qed.

Example TestMissingInputs :
  Forall (λ input, Start test_manifold (missing input test_context) = inr ErrMissing)
         expectedInputs.
Proof. repeat constructor. Qed.

Example TestStart :
  Start test_manifold test_context
  = inl {| cfg_State := 0;
           cfg_MongoSession := ();
           cfg_APIHostPortsSetter := 0;
           cfg_Clock := ();
           cfg_Hub := ();
           SupportsSpaces := true;
           MongoPort := 1234;
           cfg_APIPort := 5678 |}.
Proof. reflexivity. Qed.

(** The start of [TestStart], by the theorem: with the three resources
    of the suite in the context, the constructor is handed the [Config]
    of the ports 1234 and 5678. *)
Lemma Manifold_start_witness :
  Start test_manifold test_context
  = inl (config_for 0 () () true {| StatePort := 1234; APIPort := 5678 |}).
Proof.
  apply (proj1 (proj2 (proj2 (Manifold_start test_ManifoldConfig test_context)))
           {| agent_StateServingInfo := Some {| StatePort := 1234; APIPort := 5678 |} |}
           () {| Use := inl 0 |} 0 {| StatePort := 1234; APIPort := 5678 |} true);
    reflexivity.
Defined.

End Manifold.

(** * Go functions that may panic *)

(** The result of a function, or the panic it raises. *)
Inductive panics (A : Type) :=
  | Ok (a : A)
  | Panic (msg : string).
Arguments Ok {A} a.
Arguments Panic {A} msg.

(** Drop what a statement does not mention. *)
Ltac only_needed := repeat match goal with x : _ |- _ => clear x end.

(** * environs: finding tools *)

Module Tools.

(** [version.Number] and [version.Binary]; [state.Tools] embeds a
    [version.Binary].  A list of tools holds no nil pointer. *)
Record Number := { Major : Z; Minor : Z; Patch : Z; Build : Z }.

Record Binary := { Number_ : Number; Series : string; Arch : string }.

Record Tools := { Binary_ : Binary; URL : string }.

Definition number (t : Tools) : Number := Number_ (Binary_ t).

(** The errors of the package: the sentinel [tools.ErrNoMatches], a
    [NotFoundError] around another error, the errors made by
    [fmt.Errorf], and those of the storage and the configuration, by
    their message. *)
Inductive error :=
  | ErrNoMatches
  | NotFoundError (err : error)
  | fmt_Errorf (msg : string)
  | other_error (msg : string).

Global Instance error_eq_dec : EqDecision error.
Proof. solve_decision. Defined.

(** ToolsList holds a list of available tools.  Private tools take
    precedence over public tools, even if they have a lower version
    number. *)
Record ToolsList := { Private : slice Tools; Public : slice Tools }.

(** ToolsSearchFlags gives options when searching for tools. *)
Definition ToolsSearchFlags : Type := Z.

Definition HighestVersion : ToolsSearchFlags := Z.shiftl 1 0.
Definition DevVersion : ToolsSearchFlags := Z.shiftl 1 1.
Definition CompatVersion : ToolsSearchFlags := Z.shiftl 1 2.

(** [tools.Filter]. *)
Record Filter := {
  Released : bool;
  filter_Number : Number;
  filter_Series : string;
  filter_Arch : string
}.

(** noMatchContext converts tools.ErrNoMatches into a NotFoundError. *)
Definition noMatchContext (err : option error) : option error :=
  match err with
  | Some ErrNoMatches => Some (NotFoundError ErrNoMatches)
  | _ => err
  end.

Section Search.
#[local] Set Default Proof Using "Type".

(** The methods [Less] and [IsDev] of [version.Number] are outside the
    sources. *)
Variable Less : Number → Number → bool.
Variable IsDev : Number → bool.

(** The test that makes the loop of [bestTools] pass over a tool. *)
Definition skipped (vers : Binary) (flags : ToolsSearchFlags) (t : Tools) : bool :=
  let allowDev := IsDev (Number_ vers) || negb (Z.land flags DevVersion =? 0)%Z in
  let allowHigher := negb (Z.land flags HighestVersion =? 0)%Z in
  negb (Major (number t) =? Major (Number_ vers))%Z
  || negb (bool_decide (Series (Binary_ t) = Series vers))
  || negb (bool_decide (Arch (Binary_ t) = Arch vers))
  || negb allowDev && IsDev (number t)
  || negb allowHigher && Less (Number_ vers) (number t).

(** bestTools is like BestTools but operates on a single list of tools. *)
Definition bestTools (toolsList : slice Tools) (vers : Binary) (flags : ToolsSearchFlags)
    : option Tools :=
  foldl (λ bestTools t,
           if skipped vers flags t then bestTools
           else match bestTools with
                | None => Some t
                | Some b => if Less (number b) (number t) then Some t else bestTools
                end)
        None (elems toolsList).

(** BestTools returns the most recent version from the set of tools in
    the ToolsList that are compatible with the given version, using flags
    to determine possible candidates.  It returns nil if no such tools
    are found. *)
Definition BestTools (list : option ToolsList) (vers : Binary) (flags : ToolsSearchFlags)
    : panics (option Tools) :=
  if (Z.land flags CompatVersion =? 0)%Z then Panic "CompatVersion not implemented"
  else match list with
       | None => Panic "nil pointer dereference"
       | Some list =>
           match bestTools (Private list) vers flags with
           | Some tools => Ok (Some tools)
           | None => Ok (bestTools (Public list) vers flags)
           end
       end.

(** A flag is set. *)
Definition has_flag (flags flag : ToolsSearchFlags) : Prop := Z.land flags flag ≠ 0%Z.

(** A tool that can be chosen for [vers]: the same major version, series
    and architecture; a development version only for a development
    [vers] or with [DevVersion]; a version above that of [vers] only with
    [HighestVersion]. *)
Definition compatible (vers : Binary) (flags : ToolsSearchFlags) (t : Tools) : Prop :=
  Major (number t) = Major (Number_ vers)
  ∧ Series (Binary_ t) = Series vers
  ∧ Arch (Binary_ t) = Arch vers
  ∧ (IsDev (number t) = true →
     IsDev (Number_ vers) = true ∨ has_flag flags DevVersion)
  ∧ (Less (Number_ vers) (number t) = true → has_flag flags HighestVersion).

Lemma skipped_false vers flags t :
  skipped vers flags t = false ↔ compatible vers flags t.
Proof.
  unfold skipped, compatible, has_flag.
  rewrite !orb_false_iff, !negb_false_iff, !andb_false_iff, !negb_false_iff.
  rewrite !bool_decide_eq_true, Z.eqb_eq, !orb_true_iff, !negb_true_iff, !Z.eqb_neq.
  destruct (IsDev (number t)), (Less (Number_ vers) (number t));
    intuition congruence.
Qed.

(** The body of the loop of [bestTools]. *)
Definition better (vers : Binary) (flags : ToolsSearchFlags)
    (best : option Tools) (t : Tools) : option Tools :=
  if skipped vers flags t then best
  else match best with
       | None => Some t
       | Some b => if Less (number b) (number t) then Some t else best
       end.

Lemma bestTools_loop_member vers flags l acc b :
  foldl (better vers flags) acc l = Some b →
  acc = Some b ∨ (b ∈ l ∧ skipped vers flags b = false).
Proof.
  revert acc. induction l as [|t l IH]; intros acc; simpl; [by left|].
  intros [Hacc|[Hin Hb]]%IH; [|right; split; [by right | done]].
  unfold better in Hacc. destruct (skipped vers flags t) eqn:Hskip; [by left|].
  destruct acc as [a|].
  - destruct (Less (number a) (number t)); [|by left].
    simplify_eq. right. split; [by left | done].
  - simplify_eq. right. split; [by left | done].
Qed.

Lemma bestTools_loop_None vers flags l acc :
  foldl (better vers flags) acc l = None ↔
  acc = None ∧ Forall (λ t, skipped vers flags t = true) l.
Proof.
  revert acc. induction l as [|t l IH]; intros acc; simpl.
  - split; [by intros -> | by intros [-> _]].
  - rewrite IH, Forall_cons. unfold better.
    destruct (skipped vers flags t); [naive_solver|].
    destruct acc as [a|]; [destruct (Less (number a) (number t))|]; naive_solver.
Qed.

Lemma bestTools_loop_most_recent vers flags l acc b :
  (∀ a, Less a a = false) →
  (∀ a b c, Less a b = true → Less b c = true → Less a c = true) →
  foldl (better vers flags) acc l = Some b →
  (∀ a, acc = Some a → a = b ∨ Less (number a) (number b) = true)
  ∧ (∀ t, t ∈ l → skipped vers flags t = false → Less (number b) (number t) = false).
Proof.
  intros Hirrefl Htrans.
  revert acc. induction l as [|t l IH]; intros acc; simpl.
  - intros ->. split; [intros a [= ->]; by left | by intros t Ht%elem_of_nil].
  - intros [Hacc Hrest]%IH. unfold better in Hacc.
    assert (∀ x y, Less x y = true → Less y x = false) as Hasym.
    { intros x y Hxy. destruct (Less y x) eqn:Hyx; [|done].
      by rewrite <- (Hirrefl x), (Htrans x y x). }
    destruct (skipped vers flags t) eqn:Hskip.
    { split; [done|]. intros t' [->|Ht']%elem_of_cons Hcompat; [congruence|].
      by apply Hrest. }
    split.
    + intros a ->. destruct (Less (number a) (number t)) eqn:Hlt.
      * destruct (Hacc t eq_refl) as [<-|Htb]; [by right|].
        right. by apply (Htrans _ (number t)).
      * by apply Hacc.
    + intros t' [->|Ht']%elem_of_cons Hcompat; [|by apply Hrest].
      destruct acc as [a|].
      * destruct (Less (number a) (number t)) eqn:Hlt.
        -- destruct (Hacc t eq_refl) as [<-|Htb]; [apply Hirrefl | by apply Hasym].
        -- destruct (Hacc a eq_refl) as [<-|Hab]; [done|].
           destruct (Less (number b) (number t)) eqn:Hbt; [|done].
           by rewrite <- Hlt, (Htrans _ (number b)).
      * destruct (Hacc t eq_refl) as [<-|Htb]; [apply Hirrefl | by apply Hasym].
Qed.

Lemma bestTools_unfold toolsList vers flags :
  bestTools toolsList vers flags = foldl (better vers flags) None (elems toolsList).
Proof. done. Qed.

(** The tool [bestTools] returns is one of the list and can be chosen for
    [vers] under the flags. *)
Theorem bestTools_compatible toolsList vers flags b :
  bestTools toolsList vers flags = Some b →
  b ∈ elems toolsList ∧ compatible vers flags b.
Proof.
  rewrite bestTools_unfold. intros [?|[Hin Hb]]%bestTools_loop_member; [done|].
  split; [done|]. by apply skipped_false.
Qed.

(** [bestTools] returns nil exactly when no tool of the list can be
    chosen. *)
Theorem bestTools_nil toolsList vers flags :
  bestTools toolsList vers flags = None ↔
  ∀ t, t ∈ elems toolsList → ¬ compatible vers flags t.
Proof.
  rewrite bestTools_unfold, bestTools_loop_None, Forall_forall.
  split.
  - intros [_ Hall] t Ht Hcompat%skipped_false. specialize (Hall t Ht). congruence.
  - intros Hall. split; [done|]. intros t Ht.
    destruct (skipped vers flags t) eqn:Hskip; [done|].
    by apply skipped_false, Hall in Hskip.
Qed.

(** When [Less] is a strict order, no tool of the list that can be chosen
    is more recent than the one [bestTools] returns. *)
Theorem bestTools_most_recent toolsList vers flags b :
  (∀ a, Less a a = false) →
  (∀ a b c, Less a b = true → Less b c = true → Less a c = true) →
  bestTools toolsList vers flags = Some b →
  ∀ t, t ∈ elems toolsList → compatible vers flags t →
       Less (number b) (number t) = false.
Proof.
  intros Hirrefl Htrans Hbest t Ht Hcompat%skipped_false.
  rewrite bestTools_unfold in Hbest.
  by apply (bestTools_loop_most_recent _ _ _ _ _ Hirrefl Htrans Hbest).
Qed.

(** Without [CompatVersion] [BestTools] panics, whatever the lists hold.
    With it, private tools take precedence over public tools, even if
    they have a lower version number: if some private tool can be chosen,
    the tool returned is a private one; the public tools are searched
    only when no private tool can be chosen. *)
Theorem BestTools_private_first (list : ToolsList) vers flags :
  (¬ has_flag flags CompatVersion →
   ∀ list', BestTools list' vers flags = Panic "CompatVersion not implemented")
  ∧ (has_flag flags CompatVersion →
     ((∃ t, t ∈ elems (Private list) ∧ compatible vers flags t) →
      ∃ b, BestTools (Some list) vers flags = Ok (Some b)
           ∧ b ∈ elems (Private list) ∧ compatible vers flags b)
     ∧ ((∀ t, t ∈ elems (Private list) → ¬ compatible vers flags t) →
        BestTools (Some list) vers flags = Ok (bestTools (Public list) vers flags))).
Proof.
  unfold BestTools, has_flag. split.
  - intros Hflag list'. destruct (Z.eqb_spec (Z.land flags CompatVersion) 0); [done|].
    by destruct Hflag.
  - intros Hflag. destruct (Z.eqb_spec (Z.land flags CompatVersion) 0); [done|].
    split.
    + intros (t & Ht & Hcompat).
      destruct (bestTools (Private list) vers flags) as [b|] eqn:Hbest.
      * exists b. split; [done|]. by apply bestTools_compatible.
      * exfalso. by eapply bestTools_nil.
    + intros Hnone%bestTools_nil. by rewrite Hnone.
Qed.

End Search.

Section Find.
#[local] Set Default Proof Using "Type".

(** Outside the sources: the methods [Less], [IsDev] and [String] of
    [version.Number], [version.CurrentNumber()], the storages with
    [tools.ReadList], the methods [Match] and [Newest] of [tools.List],
    the configuration with its methods, and [SetConfig] of the
    environment, which may refuse the configuration. *)
Context {Storage Config : Type}.
Variable Less : Number → Number → bool.
Variable IsDev : Number → bool.
Variable Number_String : Number → string.
Variable Error : error → string.
Variable CurrentNumber : Number.
Variable ReadList : Storage → Z → slice Tools * option error.
Variable Match : slice Tools → Filter → slice Tools * option error.
Variable Newest : slice Tools → slice Tools.
Variable DefaultSeries : Config → string.
Variable AgentVersion : Config → option Number.
Variable Development : Config → bool.
Variable Apply : Config → gmap string string → option Config * option error.

(** An environment: its configuration and its two storages. *)
Record Environ := {
  env_Config : Config;
  env_Storage : Storage;
  env_PublicStorage : Storage
}.

Variable SetConfig : Environ → option Config → option error * Environ.

(** ListTools returns a ToolsList holding all the tools available in the
    given environment that have the given major version. *)
Definition ListTools (env : Environ) (majorVersion : Z) : option ToolsList * option error :=
  let '(private, err) := ReadList (env_Storage env) majorVersion in
  match err with
  | None | Some ErrNoMatches =>
      let '(public, err) := ReadList (env_PublicStorage env) majorVersion in
      match err with
      | None | Some ErrNoMatches =>
          (Some {| Private := private; Public := public |}, None)
      | Some err => (None, Some err)
      end
  | Some err => (None, Some err)
  end.

(** FindTools tries to find a set of tools compatible with the given
    version from the given environment, using flags to determine possible
    candidates. *)
Definition FindTools (env : Environ) (vers : Binary) (flags : ToolsSearchFlags)
    : panics (option Tools * option error) :=
  let '(toolsList, err) := ListTools env (Major (Number_ vers)) in
  match err with
  | Some err => Ok (None, Some err)
  | None =>
      match BestTools Less IsDev toolsList vers flags with
      | Panic msg => Panic msg
      | Ok None => Ok (None, Some (NotFoundError (fmt_Errorf "no compatible tools found")))
      | Ok (Some tools) => Ok (Some tools, None)
      end
  end.

(** FindAvailableTools returns a tools.List containing all tools with a
    given version number in the environment's private storage.  If no
    tools are present in private storage, it falls back to public
    storage.  Tools from public and private buckets are not mixed. *)
Definition FindAvailableTools (environ : Environ) (majorVersion : Z)
    : slice Tools * option error :=
  let '(list, err) := ReadList (env_Storage environ) majorVersion in
  match err with
  | Some ErrNoMatches => ReadList (env_PublicStorage environ) majorVersion
  | _ => (list, err)
  end.

(** The filter's architecture, set when the constraints name one. *)
Definition with_arch (cons_Arch : option string) (filter : Filter) : Filter :=
  match cons_Arch with
  | Some arch =>
      if decide (arch ≠ "") then
        {| Released := Released filter; filter_Number := filter_Number filter;
           filter_Series := filter_Series filter; filter_Arch := arch |}
      else filter
  | None => filter
  end.

Definition Number_zero : Number := {| Major := 0; Minor := 0; Patch := 0; Build := 0 |}.

(** FindBootstrapTools returns a ToolsList containing only those tools
    with which it would be reasonable to launch an environment's first
    machine, given the supplied constraints.  If the environment was not
    already configured to use a specific agent version, the newest
    available version will be chosen and set in the environment's
    configuration.  The function returns its two results and the
    environment as it leaves it; the deferred [noMatchContext] sees the
    error of every return. *)
Definition FindBootstrapTools (environ : Environ) (cons_Arch : option string)
    : panics (slice Tools * option error * Environ) :=
  let deferred '(list, err, environ) := (list, noMatchContext err, environ) in
  let cliVersion := CurrentNumber in
  let '(list, err) := FindAvailableTools environ (Major cliVersion) in
  match err with
  | Some _ => Ok (deferred (None, err, environ))
  | None =>
      let cfg := env_Config environ in
      let filter := {| Released := false; filter_Number := Number_zero;
                       filter_Series := DefaultSeries cfg; filter_Arch := "" |} in
      let filter := with_arch cons_Arch filter in
      match AgentVersion cfg with
      | Some agentVersion =>
          let filter := {| Released := Released filter; filter_Number := agentVersion;
                           filter_Series := filter_Series filter;
                           filter_Arch := filter_Arch filter |} in
          let '(list, err) := Match list filter in
          Ok (deferred (list, err, environ))
      | None =>
          let allowDevTools := Development cfg || IsDev cliVersion in
          let filter := {| Released := negb allowDevTools;
                           filter_Number := filter_Number filter;
                           filter_Series := filter_Series filter;
                           filter_Arch := filter_Arch filter |} in
          let '(list, err) := Match list filter in
          match err with
          | Some _ => Ok (deferred (None, err, environ))
          | None =>
              let list := Newest list in
              match elems list with
              | [] => Panic "index out of range"
              | first :: _ =>
                  let '(cfg, err) :=
                    Apply cfg {[ "agent-version" := Number_String (number first) ]} in
                  let '(err, environ) :=
                    match err with
                    | None => SetConfig environ cfg
                    | Some _ => (err, environ)
                    end in
                  match err with
                  | Some err =>
                      Ok (deferred
                            (None,
                             Some (fmt_Errorf
                                     ("failed to update environment configuration: "
                                      +:+ Error err)),
                             environ))
                  | None => Ok (deferred (list, None, environ))
                  end
              end
          end
      end
  end.

(** FindInstanceTools returns a ToolsList containing only those tools
    with which it would be reasonable to start a new instance, given the
    supplied series and constraints.  It is an error to call it with an
    environment not already configured to use a specific agent version. *)
Definition FindInstanceTools (environ : Environ) (series : string)
    (cons_Arch : option string) : slice Tools * option error :=
  let deferred '(list, err) := (list, noMatchContext err) in
  match AgentVersion (env_Config environ) with
  | None =>
      deferred (None, Some (fmt_Errorf "no agent version set in environment configuration"))
  | Some agentVersion =>
      let '(list, err) := FindAvailableTools environ (Major agentVersion) in
      match err with
      | Some _ => deferred (None, err)
      | None =>
          let filter := {| Released := false; filter_Number := agentVersion;
                           filter_Series := series; filter_Arch := "" |} in
          let filter := with_arch cons_Arch filter in
          deferred (Match list filter)
      end
  end.

(** FindExactTools returns only the tools that match the supplied
    version. *)
Definition FindExactTools (environ : Environ) (vers : Binary)
    : panics (option Tools * option error) :=
  let '(list, err) := FindAvailableTools environ (Major (Number_ vers)) in
  match err with
  | Some _ => Ok (None, err)
  | None =>
      let '(list, err) :=
        Match list {| Released := false; filter_Number := Number_ vers;
                      filter_Series := Series vers; filter_Arch := Arch vers |} in
      match err with
      | Some _ => Ok (None, err)
      | None =>
          match elems list with
          | [] => Panic "index out of range"
          | first :: _ => Ok (Some first, None)
          end
      end
  end.

(** ** Properties *)

(** An error other than nil and [tools.ErrNoMatches]. *)
Definition failure (err : option error) : Prop :=
  err ≠ None ∧ err ≠ Some ErrNoMatches.

Global Instance failure_dec err : Decision (failure err).
Proof. unfold failure. apply _. Defined.

Lemma ListTools_spec env majorVersion :
  let private := ReadList (env_Storage env) majorVersion in
  let public := ReadList (env_PublicStorage env) majorVersion in
  ListTools env majorVersion
  = if decide (failure private.2) then (None, private.2)
    else if decide (failure public.2) then (None, public.2)
    else (Some {| Private := private.1; Public := public.1 |}, None).
Proof.
  only_needed.
  unfold ListTools, failure. simpl.
  destruct (ReadList (env_Storage env) majorVersion) as [private [[]|]];
    destruct (ReadList (env_PublicStorage env) majorVersion) as [public [[]|]];
    simpl; repeat case_decide; naive_solver.
Qed.

(** [FindTools] with [CompatVersion]: when a storage cannot be read, for
    another reason than [tools.ErrNoMatches], that error is returned;
    otherwise a tool is returned exactly when one of the two storages
    holds a tool that can be chosen, and it is a private tool if a
    private tool can be chosen; when none can, the error is a
    NotFoundError. *)
Theorem FindTools_found env vers flags :
  has_flag flags CompatVersion →
  let private := ReadList (env_Storage env) (Major (Number_ vers)) in
  let public := ReadList (env_PublicStorage env) (Major (Number_ vers)) in
  (failure private.2 → FindTools env vers flags = Ok (None, private.2))
  ∧ (¬ failure private.2 → failure public.2 →
     FindTools env vers flags = Ok (None, public.2))
  ∧ (¬ failure private.2 → ¬ failure public.2 →
     ((∃ t, t ∈ elems private.1 ∧ compatible Less IsDev vers flags t) →
      ∃ b, FindTools env vers flags = Ok (Some b, None)
           ∧ b ∈ elems private.1 ∧ compatible Less IsDev vers flags b)
     ∧ ((∀ t, t ∈ elems private.1 → ¬ compatible Less IsDev vers flags t) →
        (∃ t, t ∈ elems public.1 ∧ compatible Less IsDev vers flags t) →
        ∃ b, FindTools env vers flags = Ok (Some b, None)
             ∧ b ∈ elems public.1 ∧ compatible Less IsDev vers flags b)
     ∧ ((∀ t, t ∈ elems private.1 ++ elems public.1 → ¬ compatible Less IsDev vers flags t) →
        FindTools env vers flags
        = Ok (None, Some (NotFoundError (fmt_Errorf "no compatible tools found"))))).
Proof.
  only_needed.
  intros Hflag private public. unfold FindTools.
  rewrite ListTools_spec. fold private public.
  assert ((Z.land flags CompatVersion =? 0)%Z = false) as Hbit
    by by apply Z.eqb_neq.
  split; [|split].
  - intros Hfail. rewrite decide_True by done.
    destruct Hfail as [Hfail _]. by destruct (private.2).
  - intros Hok Hfail. rewrite decide_False, decide_True by done.
    destruct Hfail as [Hfail _]. by destruct (public.2).
  - intros Hok1 Hok2. rewrite !decide_False by done.
    unfold BestTools. rewrite Hbit. simpl.
    split; [|split].
    + intros (t & Ht & Hcompat).
      destruct (bestTools Less IsDev private.1 vers flags) as [b|] eqn:Hbest.
      * exists b. split; [done|]. by apply bestTools_compatible.
      * exfalso. by eapply bestTools_nil.
    + intros Hnone%bestTools_nil (t & Ht & Hcompat). rewrite Hnone.
      destruct (bestTools Less IsDev public.1 vers flags) as [b|] eqn:Hbest.
      * exists b. split; [done|]. by apply bestTools_compatible.
      * exfalso. by eapply bestTools_nil.
    + intros Hnone.
      assert (bestTools Less IsDev private.1 vers flags = None) as ->.
      { apply bestTools_nil. intros t Ht. apply Hnone, elem_of_app. by left. }
      assert (bestTools Less IsDev public.1 vers flags = None) as ->; [|done].
      apply bestTools_nil. intros t Ht. apply Hnone, elem_of_app. by right.
Qed.

(** [FindAvailableTools] answers with what one of the two storages
    holds, never a mix: the private storage unless it reports
    [tools.ErrNoMatches], the public storage in that case; so it reports
    [tools.ErrNoMatches] exactly when both storages do. *)
Theorem FindAvailableTools_not_mixed environ majorVersion :
  let private := ReadList (env_Storage environ) majorVersion in
  let public := ReadList (env_PublicStorage environ) majorVersion in
  (FindAvailableTools environ majorVersion = private
   ∨ FindAvailableTools environ majorVersion = public)
  ∧ (private.2 ≠ Some ErrNoMatches → FindAvailableTools environ majorVersion = private)
  ∧ (private.2 = Some ErrNoMatches → FindAvailableTools environ majorVersion = public)
  ∧ ((FindAvailableTools environ majorVersion).2 = Some ErrNoMatches
     ↔ private.2 = Some ErrNoMatches ∧ public.2 = Some ErrNoMatches).
Proof.
  only_needed.
  unfold FindAvailableTools. simpl.
  destruct (ReadList (env_Storage environ) majorVersion) as [list [[]|]];
    simpl; naive_solver.
Qed.

Lemma noMatchContext_never err : noMatchContext err ≠ Some ErrNoMatches.
Proof. only_needed. by destruct err as [[]|]. Qed.

Lemma ListTools_never env majorVersion :
  (ListTools env majorVersion).2 ≠ Some ErrNoMatches.
Proof.
  only_needed.
  rewrite ListTools_spec. simpl. unfold failure.
  repeat case_decide; naive_solver.
Qed.

(** [FindTools], [FindBootstrapTools] and [FindInstanceTools] never
    return [tools.ErrNoMatches] itself; where neither storage has tools
    for the agent version, [FindInstanceTools] returns a NotFoundError
    around it. *)
Theorem no_matches_is_not_found environ vers flags series cons_Arch :
  (∀ tools err, FindTools environ vers flags = Ok (tools, err) →
                err ≠ Some ErrNoMatches)
  ∧ (∀ list err environ',
       FindBootstrapTools environ cons_Arch = Ok (list, err, environ') →
       err ≠ Some ErrNoMatches)
  ∧ (FindInstanceTools environ series cons_Arch).2 ≠ Some ErrNoMatches
  ∧ (∀ agentVersion,
       AgentVersion (env_Config environ) = Some agentVersion →
       (ReadList (env_Storage environ) (Major agentVersion)).2 = Some ErrNoMatches →
       (ReadList (env_PublicStorage environ) (Major agentVersion)).2 = Some ErrNoMatches →
       FindInstanceTools environ series cons_Arch
       = (None, Some (NotFoundError ErrNoMatches))).
Proof.
  only_needed.
  split; [|split; [|split]].
  - intros tools err. unfold FindTools.
    pose proof (ListTools_never environ (Major (Number_ vers))) as Hnever.
    destruct (ListTools environ (Major (Number_ vers))) as [toolsList [e|]].
    + intros [= <- <-]. exact Hnever.
    + destruct (BestTools Less IsDev toolsList vers flags) as [[b|]|]; intros [= <- <-]; done.
  - intros list err environ'. unfold FindBootstrapTools.
    destruct (FindAvailableTools environ (Major CurrentNumber)) as [l [e|]].
    { intros [= <- <- <-]. apply (noMatchContext_never (Some e)). }
    destruct (AgentVersion (env_Config environ)).
    { destruct (Match _ _) as [l' e']. intros [= <- <- <-].
      apply (noMatchContext_never e'). }
    destruct (Match _ _) as [l' [e'|]].
    { intros [= <- <- <-]. apply (noMatchContext_never (Some e')). }
    destruct (elems (Newest l')) as [|first rest]; [done|].
    destruct (Apply _ _) as [cfg' [e'|]].
    { intros [= <- <- <-]. done. }
    destruct (SetConfig environ cfg') as [[e'|] environ''];
      intros [= <- <- <-]; done.
  - unfold FindInstanceTools.
    destruct (AgentVersion (env_Config environ)); [|done].
    destruct (FindAvailableTools environ _) as [l [e|]].
    + apply (noMatchContext_never (Some e)).
    + destruct (Match _ _) as [l' e']. apply (noMatchContext_never e').
  - intros agentVersion Hversion Hprivate Hpublic.
    unfold FindInstanceTools, FindAvailableTools. rewrite Hversion.
    destruct (ReadList (env_Storage environ) _) as [l e]. simpl in Hprivate. subst e.
    destruct (ReadList (env_PublicStorage environ) _) as [l' e]. simpl in Hpublic.
    by subst e.
Qed.

(** [FindExactTools] has no such conversion: where neither storage has
    tools for the major version, it returns [tools.ErrNoMatches] as it
    is. *)
Theorem FindExactTools_no_matches environ vers :
  (ReadList (env_Storage environ) (Major (Number_ vers))).2 = Some ErrNoMatches →
  (ReadList (env_PublicStorage environ) (Major (Number_ vers))).2 = Some ErrNoMatches →
  FindExactTools environ vers = Ok (None, Some ErrNoMatches).
Proof.
  only_needed. intros Hprivate Hpublic. unfold FindExactTools, FindAvailableTools.
  destruct (ReadList (env_Storage environ) _) as [l e]. simpl in Hprivate. subst e.
  destruct (ReadList (env_PublicStorage environ) _) as [l' e]. simpl in Hpublic.
  by subst e.
Qed.

(** [FindBootstrapTools] leaves an environment with an agent version as
    it is, and does not panic on it.  On an environment without one, when
    it succeeds, the tools returned are not empty, and the environment
    is the one [SetConfig] made of the configuration with the
    agent-version of the first of them. *)
Theorem FindBootstrapTools_agent_version environ cons_Arch :
  (is_Some (AgentVersion (env_Config environ)) →
   ∃ list err, FindBootstrapTools environ cons_Arch = Ok (list, err, environ))
  ∧ (AgentVersion (env_Config environ) = None →
     ∀ list environ',
       FindBootstrapTools environ cons_Arch = Ok (list, None, environ') →
       ∃ first cfg,
         head (elems list) = Some first
         ∧ Apply (env_Config environ)
                 {[ "agent-version" := Number_String (number first) ]}
           = (cfg, None)
         ∧ SetConfig environ cfg = (None, environ')).
Proof.
  only_needed.
  unfold FindBootstrapTools. split.
  - intros [agentVersion ->].
    destruct (FindAvailableTools environ (Major CurrentNumber)) as [l [e|]];
      [by eexists _, _|].
    destruct (Match _ _) as [l' e']. by eexists _, _.
  - intros ->. intros list environ'.
    destruct (FindAvailableTools environ (Major CurrentNumber)) as [l [e|]].
    { intros [= _ He _]. by destruct e. }
    destruct (Match _ _) as [l' [e'|]].
    { intros [= _ He _]. by destruct e'. }
    destruct (elems (Newest l')) as [|first rest] eqn:Hnewest; [done|].
    destruct (Apply _ _) as [cfg' [e'|]] eqn:Happly; [done|].
    destruct (SetConfig environ cfg') as [[e'|] environ''] eqn:Hset; [done|].
    intros [= <- <-]. exists first, cfg'. by rewrite Hnewest.
Qed.

End Find.

(** ** An environment with tools

    Versions are ordered as [version.Number.Less] orders them, field by
    field; a version with an odd minor number is a development version. *)

Definition example_Less (a b : Number) : bool :=
  if decide (Major a ≠ Major b) then bool_decide (Major a < Major b)%Z
  else if decide (Minor a ≠ Minor b) then bool_decide (Minor a < Minor b)%Z
  else if decide (Patch a ≠ Patch b) then bool_decide (Patch a < Patch b)%Z
  else bool_decide (Build a < Build b)%Z.

Definition example_IsDev (v : Number) : bool := Z.odd (Minor v).

Lemma example_Less_irrefl a : example_Less a a = false.
Proof.
  unfold example_Less. repeat case_decide; try done.
  apply bool_decide_eq_false. lia.
Qed.

Lemma example_Less_trans a b c :
  example_Less a b = true → example_Less b c = true → example_Less a c = true.
Proof.
  unfold example_Less.
  repeat case_decide; rewrite !bool_decide_eq_true; lia.
Qed.

Definition tools_for (major minor patch : Z) (url : string) : Tools :=
  {| Binary_ := {| Number_ := {| Major := major; Minor := minor; Patch := patch; Build := 0 |};
                   Series := "precise"; Arch := "amd64" |};
     URL := url |}.

Definition private_tools : slice Tools :=
  Some [tools_for 1 10 0 "private/1.10.0"; tools_for 1 10 2 "private/1.10.2";
        tools_for 1 11 0 "private/1.11.0"].

Definition public_tools : slice Tools :=
  Some [tools_for 1 12 0 "public/1.12.0"; tools_for 1 14 1 "public/1.14.1";
        tools_for 2 0 0 "public/2.0.0"].

(** The version looked for: 1.12.0 on precise/amd64. *)
Definition example_vers : Binary :=
  {| Number_ := {| Major := 1; Minor := 12; Patch := 0; Build := 0 |};
     Series := "precise"; Arch := "amd64" |}.

(** A storage is what [tools.ReadList] reads from it. *)
Definition example_environ : @Environ (slice Tools * option error) unit :=
  {| env_Config := ();
     env_Storage := (private_tools, None);
     env_PublicStorage := (public_tools, None) |}.

Lemma bestTools_compatible_witness :
  tools_for 1 10 2 "private/1.10.2" ∈ elems private_tools
  ∧ compatible example_Less example_IsDev example_vers CompatVersion
               (tools_for 1 10 2 "private/1.10.2").
Proof.
  apply (bestTools_compatible example_Less example_IsDev private_tools
           example_vers CompatVersion).
  reflexivity.
Defined.

Lemma bestTools_most_recent_witness :
  example_Less (number (tools_for 1 14 1 "public/1.14.1"))
               (number (tools_for 1 12 0 "public/1.12.0")) = false.
Proof.
  apply (bestTools_most_recent example_Less example_IsDev public_tools example_vers
           (Z.lor CompatVersion HighestVersion)
           (tools_for 1 14 1 "public/1.14.1")
           example_Less_irrefl example_Less_trans eq_refl).
  - left.
  - apply skipped_false. reflexivity.
Defined.

(** The private 1.10.2 is found although the public storage holds
    1.12.0. *)
Lemma FindTools_found_witness :
  ∃ b, FindTools example_Less example_IsDev (λ storage _, storage)
                 example_environ example_vers CompatVersion
       = Ok (Some b, None)
       ∧ b ∈ elems private_tools
       ∧ compatible example_Less example_IsDev example_vers CompatVersion b.
Proof.
  destruct (FindTools_found example_Less example_IsDev (λ storage _, storage)
              example_environ example_vers CompatVersion)
    as (_ & _ & Hfound); [done|].
  destruct Hfound as (Hprivate & _ & _); [by intros [? _] | by intros [? _] |].
  apply Hprivate.
  exists (tools_for 1 10 0 "private/1.10.0"). split; [left|].
  apply skipped_false. reflexivity.
Defined.

(** An environment whose storages hold no tools at all. *)
Definition empty_environ : @Environ (slice Tools * option error) unit :=
  {| env_Config := ();
     env_Storage := (None, Some ErrNoMatches);
     env_PublicStorage := (None, Some ErrNoMatches) |}.

Lemma FindExactTools_no_matches_witness :
  FindExactTools (λ storage _, storage) (λ list _, (list, None)) empty_environ example_vers
  = Ok (None, Some ErrNoMatches).
Proof.
  apply (FindExactTools_no_matches (λ storage _, storage) (λ list _, (list, None))
           empty_environ example_vers); reflexivity.
Defined.

Example FindTools_private_first :
  FindTools example_Less example_IsDev (λ storage _, storage)
            example_environ example_vers CompatVersion
  = Ok (Some (tools_for 1 10 2 "private/1.10.2"), None).
Proof. reflexivity. Qed.

End Tools.

(** * juju: connecting to the API (the second part of server.go) *)

Module APIConn.

(** The errors of the package: those made by [fmt.Errorf] and
    [errors.NotFoundf], by their message, and those of the calls outside
    it. *)
Inductive error :=
  | fmt_Errorf (msg : string)
  | errors_NotFoundf (msg : string)
  | other_error (msg : string).

(** [api.Info], with the fields the package sets. *)
Record Info := {
  Addrs : slice string;
  CACert : string;
  Tag : string;
  Password : string
}.

(** [2 * time.Second], in nanoseconds. *)
Definition providerConnectDelay : Z := 2 * 1000000000.

Section Conn.
#[local] Set Default Proof Using "Type".

(** Outside the sources: the API state a connection gives, the dial
    options, and [api.Open], which acts on the network, the [World]. *)
Context {State DialOpts World : Type}.
Variable api_Open : Info → DialOpts → World → option State * option error * World.

(** An environment, by what [StateInfo()] returns as API info and error,
    and by [Config().AdminSecret()]. *)
Record Environ := {
  StateInfo : option Info * option error;
  AdminSecret : string
}.

(** APIConn holds a connection to a juju environment and its associated
    state through its API interface. *)
Record APIConn := {
  conn_Environ : Environ;
  conn_State : option State
}.

(** NewAPIConn returns a new Conn that uses the given environment.  The
    environment must have already been bootstrapped. *)
Definition NewAPIConn (environ : Environ) (dialOpts : DialOpts) (w : World)
    : panics (option APIConn * option error * World) :=
  let '(info, err) := StateInfo environ in
  match err with
  | Some err => Ok (None, Some err, w)
  | None =>
      match info with
      | None => Panic "nil pointer dereference"
      | Some info =>
          let info := {| Addrs := Addrs info; CACert := CACert info;
                         Tag := "user-admin"; Password := Password info |} in
          let password := AdminSecret environ in
          if decide (password = "") then
            Ok (None, Some (fmt_Errorf "cannot connect without admin-secret"), w)
          else
            let info := {| Addrs := Addrs info; CACert := CACert info;
                           Tag := Tag info; Password := password |} in
            let '(st, err, w) := api_Open info dialOpts w in
            match err with
            | Some err => Ok (None, Some err, w)
            | None => Ok (Some {| conn_Environ := environ; conn_State := st |}, None, w)
            end
      end
  end.

(** What a connection attempt sends on its channel. *)
Record apiOpenResult := {
  st : option State;
  err : option error
}.

(** Outside the sources: the configuration store and [configstore.NewDisk],
    [config.JujuHomePath], the environments file with
    [environs.ReadEnvirons] and its [Default] field, [environs.IsNoEnv],
    and [strconv.Quote] behind [%q].  [apiInfoConnect] and
    [apiConfigConnect] are functions of the file, embedded further down;
    each starts a goroutine, and [OpenAPI] is given here over what a call
    of them returns to it: the nil channel, or a channel that will carry
    the result of the attempt.  A call of them that panics is not a case
    of this [OpenAPI]. *)
Context {Store Environs : Type}.
Variable JujuHomePath : string → string.
Variable NewDisk : string → option Store * option error.
Variable ReadEnvirons : string → option Environs * option error.
Variable Default : Environs → string.
Variable IsNoEnv : error → bool.
Variable strconv_Quote : string → string.
Variable apiInfoConnect : option Store → string → option apiOpenResult.
Variable apiConfigConnect : Environs → string → Z → option apiOpenResult.

(** The loop [for st == nil && (infoResult != nil || cfgResult != nil)]
    around the [select]: a channel that is nil is never chosen; when both
    attempts are under way, the schedule says whether the one from the
    cached info delivers first.  The loop needs one turn for each attempt
    and one to leave. *)
Fixpoint wait (fuel : nat) (schedule : list bool)
    (st0 : option State) (infoErr cfgErr : option error)
    (infoResult cfgResult : option apiOpenResult)
    : option (option State * option error * option error) :=
  match fuel with
  | 0 => None
  | S fuel =>
      match st0, infoResult, cfgResult with
      | None, Some r, None =>
          wait fuel schedule (st r) (err r) cfgErr None cfgResult
      | None, None, Some r =>
          wait fuel schedule (st r) infoErr (err r) infoResult None
      | None, Some ri, Some rc =>
          if default true (head schedule)
          then wait fuel (tail schedule) (st ri) (err ri) cfgErr None cfgResult
          else wait fuel (tail schedule) (st rc) infoErr (err rc) infoResult None
      | _, _, _ => Some (st0, infoErr, cfgErr)
      end
  end.

(** OpenAPI returns an api.Client connected to the API Server for the
    named environment.  If envName is "", the default environment will be
    used.  [None] stands for a loop that has not left within [fuel]
    turns. *)
Definition OpenAPI (envName : string) (fuel : nat) (schedule : list bool)
    : option (panics (option State * option error)) :=
  let '(store, err) := NewDisk (JujuHomePath "environments") in
  match err with
  | Some err => Some (Ok (None, Some err))
  | None =>
  let '(envs, err) := ReadEnvirons "" in
  let resolved : panics (string + error) :=
    match err with
    | None =>
        if decide (envName = "") then
          match envs with
          | None => Panic "nil pointer dereference"
          | Some e =>
              if decide (Default e = "")
              then Ok (inr (fmt_Errorf "no default environment found"))
              else Ok (inl (Default e))
          end
        else Ok (inl envName)
    | Some err => if IsNoEnv err then Ok (inl envName) else Ok (inr err)
    end in
  match resolved with
  | Panic msg => Some (Panic msg)
  | Ok (inr err) => Some (Ok (None, Some err))
  | Ok (inl envName) =>
      let infoResult := apiInfoConnect store envName in
      let cfgResult :=
        match envs with
        | Some envs =>
            let delay := if infoResult is None then 0%Z else providerConnectDelay in
            apiConfigConnect envs envName delay
        | None => None
        end in
      match infoResult, cfgResult with
      | None, None =>
          Some (Ok (None, Some (errors_NotFoundf
                                  ("environment " +:+ strconv_Quote envName))))
      | _, _ =>
          '(st, infoErr, cfgErr) ← wait fuel schedule None None None infoResult cfgResult;
          match st, cfgErr with
          | Some st, _ => Some (Ok (Some st, None))
          | None, Some cfgErr => Some (Ok (None, Some cfgErr))
          | None, None => Some (Ok (None, infoErr))
          end
      end
  end
  end.

(** ** Properties *)

(** What the loop leaves in [st], [infoErr] and [cfgErr]. *)
Definition waited (schedule : list bool) (infoResult cfgResult : option apiOpenResult)
    : option State * option error * option error :=
  match infoResult, cfgResult with
  | None, None => (None, None, None)
  | Some ri, None => (st ri, err ri, None)
  | None, Some rc => (st rc, None, err rc)
  | Some ri, Some rc =>
      if default true (head schedule) then
        match st ri with
        | Some s => (Some s, err ri, None)
        | None => (st rc, err ri, err rc)
        end
      else
        match st rc with
        | Some s => (Some s, None, err rc)
        | None => (st ri, err ri, err rc)
        end
  end.

Lemma wait_enough fuel schedule infoResult cfgResult :
  (3 ≤ fuel)%nat →
  wait fuel schedule None None None infoResult cfgResult
  = Some (waited schedule infoResult cfgResult).
Proof.
  only_needed. intros Hfuel.
  destruct fuel as [|[|[|fuel]]]; [lia..|].
  destruct infoResult as [[[sti|] erri]|], cfgResult as [[[stc|] errc]|]; simpl;
    try done; by destruct (default true (head schedule)).
Qed.

(** The result is a connection. *)
Definition connected (r : panics (option State * option error)) : Prop :=
  ∃ s, r = Ok (Some s, None).


(** With fuel for three turns [OpenAPI] returns, under every schedule;
    whether it returns a connection does not depend on which attempt
    delivers first, and when it does not, neither does what it returns. *)
Theorem OpenAPI_schedule_free envName fuel1 fuel2 schedule1 schedule2 :
  (3 ≤ fuel1)%nat → (3 ≤ fuel2)%nat →
  ∃ r1 r2,
    OpenAPI envName fuel1 schedule1 = Some r1
    ∧ OpenAPI envName fuel2 schedule2 = Some r2
    ∧ (connected r1 ↔ connected r2)
    ∧ (¬ connected r1 → r1 = r2).
Proof.
  intros Hfuel1 Hfuel2. unfold OpenAPI.
  destruct (NewDisk _) as [store [e|]]; [by eexists _, _|].
  destruct (ReadEnvirons "") as [envs err0].
  match goal with
  | |- context [match ?resolved with Ok _ => _ | Panic _ => _ end] =>
      destruct resolved as [[name|e]|msg]
  end; [|by eexists _, _..].
  destruct (apiInfoConnect store name) as [ri|];
    destruct (match envs with Some _ => _ | None => _ end) as [rc|];
    rewrite ?wait_enough by done; simpl;
    try (by eexists _, _).
  - destruct ri as [[si|] ei], rc as [[sc|] ec];
      destruct (default true (head schedule1)), (default true (head schedule2));
      simpl; try destruct ec; simpl;
      eexists _, _; (split; [done|split; [done|]]);
      unfold connected; naive_solver.
  - destruct ri as [[si|] ei]; simpl;
      eexists _, _; (split; [done|split; [done|]]); unfold connected; naive_solver.
  - destruct rc as [[sc|] ec]; simpl; try destruct ec; simpl;
      eexists _, _; (split; [done|split; [done|]]); unfold connected; naive_solver.
Qed.

(** With both attempts under way, [OpenAPI] connects exactly when one of
    them does, and with the state of one of them; when neither does it
    returns the error of the configuration lookup if there is one, and
    the error of the cached info otherwise. *)
Theorem OpenAPI_outcome envName fuel schedule store envs ri rc :
  (3 ≤ fuel)%nat →
  envName ≠ "" →
  NewDisk (JujuHomePath "environments") = (store, None) →
  ReadEnvirons "" = (Some envs, None) →
  apiInfoConnect store envName = Some ri →
  apiConfigConnect envs envName providerConnectDelay = Some rc →
  ∃ r, OpenAPI envName fuel schedule = Some r
       ∧ (connected r ↔ st ri ≠ None ∨ st rc ≠ None)
       ∧ (∀ s, r = Ok (Some s, None) → st ri = Some s ∨ st rc = Some s)
       ∧ (st ri = None → st rc = None →
          r = Ok (None, match err rc with Some e => Some e | None => err ri end)).
Proof.
  only_needed. intros Hfuel Hname Hdisk Hread Hinfo Hcfg. unfold OpenAPI.
  rewrite Hdisk, Hread. rewrite decide_False by done.
  cbv zeta. rewrite Hinfo, Hcfg, wait_enough by done. simpl.
  destruct ri as [[si|] ei], rc as [[sc|] ec];
    destruct (default true (head schedule)); simpl; try destruct ec; simpl;
    eexists; (split; [done|]); unfold connected; naive_solver.
Qed.

(** An empty name stands for the default environment of the environments
    file: [OpenAPI ""] does what [OpenAPI] does for that name, and fails
    without any attempt when the file names no default. *)
Theorem OpenAPI_default envs fuel schedule :
  ReadEnvirons "" = (Some envs, None) →
  (Default envs ≠ "" → OpenAPI "" fuel schedule = OpenAPI (Default envs) fuel schedule)
  ∧ (Default envs = "" → ∀ store,
       NewDisk (JujuHomePath "environments") = (store, None) →
       OpenAPI "" fuel schedule
       = Some (Ok (None, Some (fmt_Errorf "no default environment found")))).
Proof.
  only_needed. intros Hread. unfold OpenAPI. rewrite Hread. split.
  - intros Hdefault. destruct (NewDisk _) as [store [e|]]; [done|].
    rewrite (decide_True (P := "" = "")) by done.
    by rewrite !(decide_False (P := Default envs = "")) by done.
  - intros Hdefault store ->.
    rewrite (decide_True (P := "" = "")) by done.
    by rewrite decide_True by done.
Qed.

(** For a named environment: when [apiInfoConnect] gives no channel,
    and the environments file is missing or [apiConfigConnect], asked
    without delay, gives no channel either, the error is a not-found
    error that names the environment. *)
Theorem OpenAPI_not_found envName fuel schedule store envs err0 :
  envName ≠ "" →
  NewDisk (JujuHomePath "environments") = (store, None) →
  ReadEnvirons "" = (envs, err0) →
  (∀ e, err0 = Some e → IsNoEnv e = true) →
  apiInfoConnect store envName = None →
  (∀ es, envs = Some es → apiConfigConnect es envName 0 = None) →
  OpenAPI envName fuel schedule
  = Some (Ok (None, Some (errors_NotFoundf ("environment " +:+ strconv_Quote envName)))).
Proof.
  only_needed. intros Hname Hdisk Hread Hnoenv Hinfo Hcfg. unfold OpenAPI.
  rewrite Hdisk, Hread.
  destruct err0 as [e|].
  - rewrite (Hnoenv e eq_refl). cbv zeta. rewrite Hinfo.
    destruct envs as [es|]; [|done]. by rewrite (Hcfg es eq_refl).
  - rewrite decide_False by done. cbv zeta. rewrite Hinfo.
    destruct envs as [es|]; [|done]. by rewrite (Hcfg es eq_refl).
Qed.

End Conn.

(** ** An installation with two environments

    The environments file knows "local" and "ec2" and has "local" as its
    default; the store has cached info for "local", which no longer
    answers, and for "stale", which does. *)

Definition example_Open (info : Info) (_ : unit) (dialled : list Info)
    : option string * option error * list Info :=
  (Some ("state as " +:+ Tag info), None, dialled ++ [info]).

Definition example_Environ : Environ :=
  {| StateInfo := (Some {| Addrs := Some ["10.0.0.1:17070"]; CACert := "cert";
                           Tag := "machine-0"; Password := "old" |}, None);
     AdminSecret := "secret" |}.

Definition example_NewDisk (_ : string) : option unit * option error := (Some (), None).

Definition example_ReadEnvirons (_ : string) : option string * option error :=
  (Some "local", None).

Definition example_Default (envs : string) : string := envs.

Definition example_IsNoEnv (_ : error) : bool := false.

Definition example_Quote (s : string) : string := "'" +:+ s +:+ "'".

Definition local_info : @apiOpenResult string :=
  {| st := None; err := Some (other_error "connection timed out") |}.

Definition local_config : @apiOpenResult string :=
  {| st := None; err := Some (other_error "not bootstrapped") |}.

Definition example_apiInfoConnect (_ : option unit) (envName : string)
    : option (@apiOpenResult string) :=
  if decide (envName = "local") then Some local_info
  else if decide (envName = "stale")
  then Some {| st := Some "cached"; err := None |}
  else None.

Definition example_apiConfigConnect (_ : string) (envName : string) (_ : Z)
    : option (@apiOpenResult string) :=
  if decide (envName = "local") then Some local_config
  else if decide (envName = "ec2")
  then Some {| st := Some "from config"; err := None |}
  else None.

Definition example_OpenAPI : string → nat → list bool → _ :=
  OpenAPI id example_NewDisk example_ReadEnvirons example_Default example_IsNoEnv
          example_Quote example_apiInfoConnect example_apiConfigConnect.

Lemma OpenAPI_schedule_free_witness :
  ∃ r1 r2,
    example_OpenAPI "local" 3 [true] = Some r1
    ∧ example_OpenAPI "local" 5 [false] = Some r2
    ∧ (connected r1 ↔ connected r2)
    ∧ (¬ connected r1 → r1 = r2).
Proof.
  apply (OpenAPI_schedule_free id example_NewDisk example_ReadEnvirons example_Default
           example_IsNoEnv example_Quote example_apiInfoConnect example_apiConfigConnect
           "local" 3 5 [true] [false]); lia.
Defined.

Lemma OpenAPI_outcome_witness :
  ∃ r, example_OpenAPI "local" 3 [true] = Some r
       ∧ (connected r ↔ st local_info ≠ None ∨ st local_config ≠ None)
       ∧ (∀ s, r = Ok (Some s, None) → st local_info = Some s ∨ st local_config = Some s)
       ∧ (st local_info = None → st local_config = None →
          r = Ok (None, match err local_config with
                        | Some e => Some e
                        | None => err local_info
                        end)).
Proof.
  apply (OpenAPI_outcome id example_NewDisk example_ReadEnvirons example_Default
           example_IsNoEnv example_Quote example_apiInfoConnect example_apiConfigConnect
           "local" 3 [true] (Some ()) "local" local_info local_config);
    [lia | done | reflexivity..].
Defined.

Lemma OpenAPI_default_witness :
  (example_Default "local" ≠ "" →
   example_OpenAPI "" 3 [] = example_OpenAPI (example_Default "local") 3 [])
  ∧ (example_Default "local" = "" → ∀ store,
       example_NewDisk "environments" = (store, None) →
       example_OpenAPI "" 3 []
       = Some (Ok (None, Some (fmt_Errorf "no default environment found")))).
Proof.
  apply (OpenAPI_default id example_NewDisk example_ReadEnvirons example_Default
           example_IsNoEnv example_Quote example_apiInfoConnect example_apiConfigConnect
           "local" 3 []).
  reflexivity.
Defined.

Lemma OpenAPI_not_found_witness :
  example_OpenAPI "azure" 3 []
  = Some (Ok (None, Some (errors_NotFoundf "environment 'azure'"))).
Proof.
  apply (OpenAPI_not_found id example_NewDisk example_ReadEnvirons example_Default
           example_IsNoEnv example_Quote example_apiInfoConnect example_apiConfigConnect
           "azure" 3 [] (Some ()) (Some "local") None);
    [done | reflexivity | reflexivity | done | reflexivity | by intros es _].
Defined.

(** The runs themselves: the cached info of "stale" connects though the
    file does not know the environment, "ec2" connects from its
    configuration, and "local" fails with the error of the configuration
    lookup. *)
Example OpenAPI_runs :
  example_OpenAPI "stale" 3 [] = Some (Ok (Some "cached", None))
  ∧ example_OpenAPI "ec2" 3 [] = Some (Ok (Some "from config", None))
  ∧ example_OpenAPI "" 3 [false]
    = Some (Ok (None, Some (other_error "not bootstrapped"))).
Proof. by vm_compute. Qed.

(** [NewAPIConn] dials once, as the admin user. *)
Example NewAPIConn_dials :
  NewAPIConn example_Open example_Environ () []
  = Ok (Some {| conn_Environ := example_Environ;
                conn_State := Some "state as user-admin" |}, None,
        [{| Addrs := Some ["10.0.0.1:17070"]; CACert := "cert";
            Tag := "user-admin"; Password := "secret" |}]).
Proof. reflexivity. Qed.

(** ** The two attempts *)

Section Attempts.
#[local] Set Default Proof Using "Type".

(** Outside the sources: [api.Open] and [api.DefaultDialOpts()], the
    configuration store with its method [ReadInfo], the environments with
    their method [Config], [environs.New], and [errors.IsNotFoundError],
    which is false of the nil error. *)
Context {State DialOpts World Store Environs Config : Type}.
Variable api_Open : Info → DialOpts → World → option State * option error * World.
Variable DefaultDialOpts : DialOpts.
Variable IsNotFoundError : error → bool.

Definition is_not_found (err : option error) : bool :=
  match err with
  | Some e => IsNotFoundError e
  | None => false
  end.

(** [configstore.EnvironInfo], by what its methods [APIEndpoint()] and
    [APICredentials()] return. *)
Record APIEndpoint := { Addresses : slice string; endpoint_CACert : string }.

Record APICredentials := { User : string; cred_Password : string }.

Record EnvironInfo := {
  info_APIEndpoint : APIEndpoint;
  info_APICredentials : APICredentials
}.

Variable ReadInfo : Store → string → option EnvironInfo * option error.
Variable envs_Config : Environs → string → option Config * option error.
Variable environs_New : option Config → option Environ * option error.

(** What the goroutine behind a channel does when it runs: it acts on
    the world and sends one result, unless it panics. *)
Definition attempt : Type := World → panics (@apiOpenResult State * World).

(** apiInfoConnect looks for endpoint on the given environment and tries
    to connect to it, sending the result on the returned channel.  The
    info is an interface value: the call of its method [APIEndpoint]
    panics on nil, before the test [info == nil] is reached. *)
Definition apiInfoConnect (store : option Store) (envName : string)
    : panics (option attempt) :=
  match store with
  | None => Panic "nil pointer dereference"
  | Some store =>
      let '(info, err) := ReadInfo store envName in
      if bool_decide (err ≠ None) && negb (is_not_found err) then Ok None
      else match info with
           | None => Panic "nil pointer dereference"
           | Some info =>
               let endpoint := info_APIEndpoint info in
               if decide (0 < len (Addresses endpoint))%nat then Ok None
               else
                 Ok (Some (λ w,
                   let '(st, err, w) :=
                     api_Open {| Addrs := Addresses endpoint;
                                 CACert := endpoint_CACert endpoint;
                                 Tag := "user-" +:+ User (info_APICredentials info);
                                 Password := cred_Password (info_APICredentials info) |}
                              DefaultDialOpts w in
                   Ok ({| st := st; err := err |}, w)))
           end
  end.

(** The function [connect] of [apiConfigConnect]: [stopped] says that
    the [select] took the case of the channel [stop], and not the one of
    [time.After(delay)]. *)
Definition connect (cfg : option Config) (err : option error) (stopped : bool)
    (w : World) : panics (option State * option error * World) :=
  match err with
  | Some err => Ok (None, Some err, w)
  | None =>
      if stopped then Ok (None, Some (fmt_Errorf "aborted"), w)
      else
        let '(environ, err) := environs_New cfg in
        match err with
        | Some err => Ok (None, Some err, w)
        | None =>
            match environ with
            | None => Panic "nil pointer dereference"
            | Some environ =>
                match NewAPIConn api_Open environ DefaultDialOpts w with
                | Panic msg => Panic msg
                | Ok (_, Some err, w) => Ok (None, Some err, w)
                | Ok (None, None, w) => Panic "nil pointer dereference"
                | Ok (Some apiConn, None, w) => Ok (conn_State apiConn, None, w)
                end
            end
        end
  end.

(** apiConfigConnect looks for configuration info on the given
    environment, and tries to use an Environ constructed from that to
    connect to its endpoint.  It only starts the attempt after the given
    delay, to allow the faster apiInfoConnect to hopefully succeed
    first. *)
Definition apiConfigConnect (envs : Environs) (envName : string) (delay : Z)
    : option (bool → attempt) :=
  let '(cfg, err) := envs_Config envs envName in
  if is_not_found err then None
  else Some (λ stopped w,
               match connect cfg err stopped w with
               | Panic msg => Panic msg
               | Ok (st, err, w) => Ok ({| st := st; err := err |}, w)
               end).

(** [apiInfoConnect] makes no attempt for a cached endpoint that has
    addresses.  It panics when the store has no info for the environment
    and reports that with the nil error or a not-found error.  An attempt
    it makes is one call of [api.Open] with the empty list of addresses
    of the cached endpoint, as the user of the cached credentials. *)
Theorem apiInfoConnect_addresses (store : Store) (envName : string) :
  let '(info, err) := ReadInfo store envName in
  (∀ i, info = Some i → (0 < len (Addresses (info_APIEndpoint i)))%nat →
        apiInfoConnect (Some store) envName = Ok None)
  ∧ (info = None → err = None ∨ is_not_found err = true →
     apiInfoConnect (Some store) envName = Panic "nil pointer dereference")
  ∧ (∀ a, apiInfoConnect (Some store) envName = Ok (Some a) →
       ∃ i, info = Some i
            ∧ elems (Addresses (info_APIEndpoint i)) = []
            ∧ ∀ w, let '(st, err, w') :=
                     api_Open {| Addrs := Addresses (info_APIEndpoint i);
                                 CACert := endpoint_CACert (info_APIEndpoint i);
                                 Tag := "user-" +:+ User (info_APICredentials i);
                                 Password := cred_Password (info_APICredentials i) |}
                              DefaultDialOpts w in
                   a w = Ok ({| st := st; err := err |}, w')).
Proof.
  only_needed. unfold apiInfoConnect.
  destruct (ReadInfo store envName) as [info err].
  split; [|split].
  - intros i -> Hlen.
    destruct (bool_decide (err ≠ None) && negb (is_not_found err)); [done|].
    by rewrite decide_True.
  - intros -> [-> | Hnf]; [done|].
    rewrite Hnf. by rewrite andb_false_r.
  - intros a.
    destruct (bool_decide (err ≠ None) && negb (is_not_found err)); [done|].
    destruct info as [i|]; [|done].
    case_decide as Hlen; [done|]. intros [= <-].
    exists i. split; [done|]. split.
    + unfold len in Hlen. destruct (elems (Addresses (info_APIEndpoint i))); [done|].
      simpl in Hlen. lia.
    + intros w. by destruct (api_Open _ _ _) as [[st' err'] w'].
Qed.

(** [apiConfigConnect] gives no channel exactly when the configuration
    of the environment is reported as not found.  The attempt behind its
    channel sends the error of the configuration, or "aborted" when it
    was stopped before the delay had passed, without acting on the world;
    and it never sends a state together with an error. *)
Theorem apiConfigConnect_attempt (envs : Environs) (envName : string) (delay : Z) :
  let '(cfg, cfgErr) := envs_Config envs envName in
  (apiConfigConnect envs envName delay = None ↔ is_not_found cfgErr = true)
  ∧ (∀ a, apiConfigConnect envs envName delay = Some a →
       (∀ e stopped w, cfgErr = Some e →
          a stopped w = Ok ({| st := None; err := Some e |}, w))
       ∧ (∀ w, cfgErr = None →
            a true w = Ok ({| st := None; err := Some (fmt_Errorf "aborted") |}, w))
       ∧ (∀ stopped w r w',
            a stopped w = Ok (r, w') → err r ≠ None → st r = None)).
Proof.
  only_needed. unfold apiConfigConnect.
  destruct (envs_Config envs envName) as [cfg cfgErr].
  destruct (is_not_found cfgErr) eqn:Hnf.
  { split; [done|]. by intros a. }
  split; [done|]. intros a [= <-]. split; [|split].
  - by intros e stopped w ->.
  - by intros w ->.
  - intros stopped w r w'. unfold connect.
    destruct cfgErr as [e|]; [by intros [= <- <-]|].
    destruct stopped; [by intros [= <- <-]|].
    destruct (environs_New cfg) as [environ [e|]]; [by intros [= <- <-]|].
    destruct environ as [environ|]; [|done].
    destruct (NewAPIConn api_Open environ DefaultDialOpts w)
      as [[[[apiConn|] [e|]] w'']|]; try done; by intros [= <- <-].
Qed.

End Attempts.

(** A store with cached info for "stale", whose endpoint has an address,
    and for "fresh", whose endpoint has none. *)
Definition example_ReadInfo (_ : unit) (envName : string)
    : option EnvironInfo * option error :=
  if decide (envName = "stale") then
    (Some {| info_APIEndpoint := {| Addresses := Some ["10.0.0.1:17070"];
                                    endpoint_CACert := "cert" |};
             info_APICredentials := {| User := "admin"; cred_Password := "secret" |} |},
     None)
  else if decide (envName = "fresh") then
    (Some {| info_APIEndpoint := {| Addresses := None; endpoint_CACert := "cert" |};
             info_APICredentials := {| User := "admin"; cred_Password := "secret" |} |},
     None)
  else (None, Some (errors_NotFoundf "environment info")).

Definition example_IsNotFoundError (e : error) : bool :=
  match e with errors_NotFoundf _ => true | _ => false end.

(** The cached endpoint with an address is not tried, the one without is
    dialled, and an environment the store does not know makes the call
    panic. *)
Example apiInfoConnect_runs :
  apiInfoConnect example_Open () example_IsNotFoundError example_ReadInfo
                 (Some ()) "stale" = Ok None
  ∧ (∃ a, apiInfoConnect example_Open () example_IsNotFoundError example_ReadInfo
                         (Some ()) "fresh" = Ok (Some a)
          ∧ a [] = Ok ({| st := Some "state as user-admin"; err := None |},
                       [{| Addrs := None; CACert := "cert";
                           Tag := "user-admin"; Password := "secret" |}]))
  ∧ apiInfoConnect example_Open () example_IsNotFoundError example_ReadInfo
                   (Some ()) "unknown" = Panic "nil pointer dereference".
Proof. split; [done|split; [|done]]. eexists. split; reflexivity. Qed.

End APIConn.
